(** * k6 [events] module: timers scheduled from a single-threaded script loop

    A shallow embedding of [js/modules/k6/events/events.go].

    The Go code keeps a registry of live timers ([timerStops], guarded by
    [timerStopsLock], keyed by ids drawn from the atomic counter
    [timerStopCounter]) and starts one goroutine per timer.  The embedding
    has three layers:

    - the registry operations [getTimerStopCh] and [stopTimerCh] as
      functions on the module instance and the heap of channels;
    - the four exported entry points, the two goroutine bodies and the
      host's executor as one interleaving machine ([step]), every atomic
      section of the Go code being one transition;
    - the observable interaction with the host (registrations,
      submissions, callback invocations, warnings) as a trace. *)

From Stdlib Require Import ZArith List Bool Lia Floats.
From stdpp Require Import base option list gmap.

Local Open Scope Z_scope.

(** ** Go values *)

(** [chan struct{}]: a channel is a reference; the heap records for every
    channel made so far whether it has been closed.  Nothing is ever sent
    on these channels, so a receive succeeds exactly when the channel is
    closed. *)
Definition chan := nat.

(** [uint32] arithmetic wraps around. *)
Definition uint32_modulus : Z := 2 ^ 32.
Definition wrap32 (z : Z) : Z := z mod uint32_modulus.

(** A Go call either returns or panics. *)
Inductive Go (A : Type) : Type :=
| Ret (a : A)
| Panic.
Arguments Ret {A} a.
Arguments Panic {A}.

(** ** The module instance *)

(** [type Events struct]: the counter and the table.  The [vu] field is the
    host, modelled further down; the mutex is modelled by making every
    critical section one atomic function. *)
Record Events := mkEvents {
  timerStopCounter : Z;
  timerStops : gmap Z chan
}.

(** The instance together with the channel heap its table points into
    ([true] = closed). *)
Record Store := mkStore {
  inst : Events;
  chans : list bool
}.

(** [NewModuleInstance]: counter zero, empty table. *)
Definition NewModuleInstance : Events := mkEvents 0 ∅.

Definition new_store : Store := mkStore NewModuleInstance [].

(** ** Timer registry *)

(** [atomic.AddUint32(&e.timerStopCounter, 1)]: returns the new value. *)
Definition atomic_AddUint32 (s : Store) : Z * Store :=
  let id := wrap32 (timerStopCounter (inst s) + 1) in
  (id, mkStore (mkEvents id (timerStops (inst s))) (chans s)).

(** [make(chan struct{})]: a fresh, open channel. *)
Definition make_chan (s : Store) : chan * Store :=
  (length (chans s), mkStore (inst s) (chans s ++ [false])).

(** [e.timerStops[id] = ch], between Lock and Unlock. *)
Definition table_store (id : Z) (ch : chan) (s : Store) : Store :=
  mkStore (mkEvents (timerStopCounter (inst s)) (<[id := ch]> (timerStops (inst s))))
          (chans s).

(** The part of [getTimerStopCh] after the atomic add. *)
Definition register_ch (id : Z) (s : Store) : chan * Store :=
  let '(ch, s1) := make_chan s in
  (ch, table_store id ch s1).

Definition getTimerStopCh (s : Store) : (Z * chan) * Store :=
  let '(id, s1) := atomic_AddUint32 s in
  let '(ch, s2) := register_ch id s1 in
  ((id, ch), s2).

(** [close(ch)]: panics on a channel that is already closed (or that was
    never made). *)
Definition close_chan (ch : chan) (s : Store) : Go Store :=
  match chans s !! ch with
  | Some false => Ret (mkStore (inst s) (<[ch := true]> (chans s)))
  | _ => Panic
  end.

(** [stopTimerCh], the whole body under the lock. *)
Definition stopTimerCh (id : Z) (s : Store) : Go (bool * Store) :=
  match timerStops (inst s) !! id with
  | None => Ret (false, s)
  | Some ch =>
      let s1 := mkStore (mkEvents (timerStopCounter (inst s))
                                  (delete id (timerStops (inst s))))
                        (chans s) in
      match close_chan ch s1 with
      | Ret s2 => Ret (true, s2)
      | Panic => Panic
      end
  end.

(** A channel is signaled when it has been closed. *)
Definition signaled (s : Store) (ch : chan) : bool :=
  match chans s !! ch with
  | Some b => b
  | None => false
  end.

(** ** The host: platform, script values, executor *)

(** [float64] is IEEE binary64. *)
Definition float64 := PrimFloat.float.

(** The conversion [time.Duration(x)] of a [float64] truncates towards
    zero.  Go leaves the result implementation-dependent when the value is
    not representable: amd64 yields the most negative integer for every
    such input, arm64 saturates and maps NaN to zero. *)
Inductive Arch := AMD64 | ARM64.

(** [asynctimerchan]: before Go 1.23 (and with GODEBUG=asynctimerchan=1)
    a timer channel has a buffer of one and [Stop] reports [false] once the
    timer has expired, whether or not the value was received; from Go 1.23
    the channel is synchronous, an expired timer whose value was not
    received still counts as running and [Stop] discards the value. *)
Record Platform := mkPlatform {
  arch : Arch;
  asynctimerchan : bool
}.

Definition int64_min : Z := - 2 ^ 63.
Definition int64_max : Z := 2 ^ 63 - 1.

Definition out_of_range (a : Arch) (sign : option bool) : Z :=
  match a, sign with
  | AMD64, _ => int64_min
  | ARM64, None => 0
  | ARM64, Some true => int64_min
  | ARM64, Some false => int64_max
  end.

Definition trunc_finite (s : bool) (m : positive) (e : Z) : Z :=
  let v := if 0 <=? e then Z.pos m * 2 ^ e else Z.pos m / 2 ^ (- e) in
  if s then - v else v.

Definition float64_to_int64 (a : Arch) (x : float64) : Z :=
  match Prim2SF x with
  | S754_zero _ => 0
  | S754_finite s m e =>
      let v := trunc_finite s m e in
      if (int64_min <=? v) && (v <=? int64_max) then v
      else out_of_range a (Some s)
  | S754_infinity s => out_of_range a (Some s)
  | S754_nan => out_of_range a None
  end.

(** [float64(time.Millisecond)]: a millisecond in nanoseconds. *)
Definition Millisecond : float64 := 1000000%float.

(** [time.Duration(delay * float64(time.Millisecond))] *)
Definition to_Duration (p : Platform) (delay : float64) : Z :=
  float64_to_int64 (arch p) (delay * Millisecond)%float.

(** [goja.Value]: a handle into the script heap. *)
Definition Value := nat.

(** Go's [error]. *)
Definition error := nat.

(** [goja.Callable]: [func(this Value, args ...Value) (Value, error)]. *)
Definition Callable := Value -> list Value -> Value * option error.

(** The capability returned by [RegisterCallback]; tokens are numbered in
    the order they are handed out. *)
Definition Token := nat.

(** The three closures handed to the executor.  [CallTick] is the closure
    of [setInterval]; it also assigns the [runOnLoop] variable it shares
    with goroutine [g]. *)
Inductive Work :=
| Noop
| CallOnce (callback : Callable) (args : list Value)
| CallTick (g : nat) (callback : Callable) (args : list Value).

Inductive Kind := Timeout | Interval.

(** What the host observes.  [g] names the goroutine (its index in
    [goroutines]) on whose behalf the host is addressed. *)
Inductive Event :=
| EvRegister (g : nat) (t : Token)
| EvSubmit (g : nat) (t : Token) (f : Work)
| EvInvoke (callback : Callable) (this : Value) (args : list Value)
| EvReturn (err : option error)
| EvWarn (k : Kind) (id : Z).

(** ** Timer goroutines *)

(** The state of a [time.Timer] or [time.Ticker] and of its channel [C]. *)
Inductive TimerState :=
| Unset      (* not created yet *)
| Armed      (* running, nothing to receive *)
| Fired      (* expired or ticked, the value not yet received *)
| Received   (* one-shot timer: expired and the value received *)
| Stopped.

(** Where a timer goroutine stands in its body. *)
Inductive Pc :=
| AtNew          (* before time.NewTimer / time.NewTicker *)
| AtSelect       (* blocked in select *)
| AtUnregister   (* deferred: e.stopTimerCh(id) *)
| AtTimerStop    (* deferred: timer.Stop() / ticker.Stop() *)
| AtDrain        (* deferred: <-timer.C *)
| Exited
| Panicked.

(** The variables captured by the goroutine of one timer. *)
Record Worker := mkWorker {
  kind : Kind;
  id : Z;
  stopCh : chan;
  callback : Callable;
  args : list Value;
  delay : float64;
  runOnLoop : Token;
  timer : TimerState;
  timer_d : Z;
  pc : Pc
}.

Definition set_pc (c : Pc) (k : Worker) : Worker :=
  mkWorker (kind k) (id k) (stopCh k) (callback k) (args k) (delay k)
           (runOnLoop k) (timer k) (timer_d k) c.

Definition set_timer (t : TimerState) (k : Worker) : Worker :=
  mkWorker (kind k) (id k) (stopCh k) (callback k) (args k) (delay k)
           (runOnLoop k) t (timer_d k) (pc k).

Definition set_timer_d (d : Z) (k : Worker) : Worker :=
  mkWorker (kind k) (id k) (stopCh k) (callback k) (args k) (delay k)
           (runOnLoop k) (timer k) d (pc k).

Definition set_runOnLoop (t : Token) (k : Worker) : Worker :=
  mkWorker (kind k) (id k) (stopCh k) (callback k) (args k) (delay k)
           t (timer k) (timer_d k) (pc k).

(** ** The world *)

Record World := mkWorld {
  store : Store;
  globalObject : Value;            (* e.vu.Runtime().GlobalObject() *)
  ctxDone : bool;                  (* e.vu.Context().Done() is closed *)
  tokens : nat;                    (* RegisterCallback calls so far *)
  queue : list Work;               (* submitted, not yet run *)
  goroutines : list Worker;
  trace : list Event;
  crashed : bool;                  (* an unrecovered panic ended the process *)
  platform : Platform
}.

Definition set_store (s : Store) (W : World) : World :=
  mkWorld s (globalObject W) (ctxDone W) (tokens W) (queue W) (goroutines W)
          (trace W) (crashed W) (platform W).

Definition set_ctxDone (b : bool) (W : World) : World :=
  mkWorld (store W) (globalObject W) b (tokens W) (queue W) (goroutines W)
          (trace W) (crashed W) (platform W).

Definition set_tokens (n : nat) (W : World) : World :=
  mkWorld (store W) (globalObject W) (ctxDone W) n (queue W) (goroutines W)
          (trace W) (crashed W) (platform W).

Definition set_queue (q : list Work) (W : World) : World :=
  mkWorld (store W) (globalObject W) (ctxDone W) (tokens W) q (goroutines W)
          (trace W) (crashed W) (platform W).

Definition set_goroutines (l : list Worker) (W : World) : World :=
  mkWorld (store W) (globalObject W) (ctxDone W) (tokens W) (queue W) l
          (trace W) (crashed W) (platform W).

Definition emit (e : Event) (W : World) : World :=
  mkWorld (store W) (globalObject W) (ctxDone W) (tokens W) (queue W) (goroutines W)
          (trace W ++ [e]) (crashed W) (platform W).

Definition crash (W : World) : World :=
  mkWorld (store W) (globalObject W) (ctxDone W) (tokens W) (queue W) (goroutines W)
          (trace W) true (platform W).

Definition set_goroutine (g : nat) (k : Worker) (W : World) : World :=
  set_goroutines (<[g := k]> (goroutines W)) W.

(** A fresh VU: a new module instance, nothing scheduled. *)
Definition new_world (global : Value) (p : Platform) : World :=
  mkWorld new_store global false 0 [] [] [] false p.

(** ** Host operations *)

(** [e.vu.RegisterCallback()], called for goroutine [g]. *)
Definition RegisterCallback (g : nat) (W : World) : Token * World :=
  (tokens W, emit (EvRegister g (tokens W)) (set_tokens (S (tokens W)) W)).

(** [runOnLoop(f)] with the token [t]: the work joins the executor queue. *)
Definition submit (g : nat) (t : Token) (f : Work) (W : World) : World :=
  emit (EvSubmit g t f) (set_queue (queue W ++ [f]) W).

(** [e.call(callback, args)] *)
Definition call (cb : Callable) (args : list Value) (W : World)
  : option error * World :=
  let this := globalObject W in
  (snd (cb this args), emit (EvInvoke cb this args) W).

(** The executor runs one unit of work. *)
Definition run_work (f : Work) (W : World) : option error * World :=
  match f with
  | Noop => (None, W)
  | CallOnce cb args => call cb args W
  | CallTick g cb args =>
      let '(t, W1) := RegisterCallback g W in
      let W2 := match goroutines W1 !! g with
                | Some k => set_goroutine g (set_runOnLoop t k) W1
                | None => W1
                end in
      call cb args W2
  end.

(** ** Exported entry points *)

Definition spawn (k : Worker) (W : World) : World :=
  set_goroutines (goroutines W ++ [k]) W.

Definition setTimeout (cb : Callable) (delay : float64) (args : list Value)
  (W : World) : Z * World :=
  let g := length (goroutines W) in
  let '(runOnLoop, W1) := RegisterCallback g W in
  let '((id, stopCh), s) := getTimerStopCh (store W1) in
  let delay := if (delay <? 0)%float then 0%float else delay in
  (id, spawn (mkWorker Timeout id stopCh cb args delay runOnLoop Unset 0 AtNew)
             (set_store s W1)).

Definition setInterval (cb : Callable) (delay : float64) (args : list Value)
  (W : World) : Z * World :=
  let g := length (goroutines W) in
  let '(runOnLoop, W1) := RegisterCallback g W in
  let '((id, stopCh), s) := getTimerStopCh (store W1) in
  (id, spawn (mkWorker Interval id stopCh cb args delay runOnLoop Unset 0 AtNew)
             (set_store s W1)).

Definition clearTimeout (id : Z) (W : World) : Go World :=
  match stopTimerCh id (store W) with
  | Ret (_, s) => Ret (set_store s W)
  | Panic => Panic
  end.

Definition clearInterval (id : Z) (W : World) : Go World :=
  match stopTimerCh id (store W) with
  | Ret (_, s) => Ret (set_store s W)
  | Panic => Panic
  end.

(** ** The goroutine bodies *)

(** The case of the [select] that is taken. *)
Inductive Outcome := Elapsed | Cancelled | Interrupted.

(** A [select] case can be taken only when its channel is ready. *)
Definition ready (o : Outcome) (k : Worker) (W : World) : bool :=
  match o with
  | Elapsed => match timer k with Fired => true | _ => false end
  | Cancelled => signaled (store W) (stopCh k)
  | Interrupted => ctxDone W
  end.

(** [timer.Stop()] of a one-shot timer: the new state and the result.
    "Stop prevents the Timer from firing.  It returns true if the call
    stops the timer, false if the timer has already expired or been
    stopped"; the idiom [if !t.Stop() { <-t.C }] is documented for a
    program that "has not received from t.C already". *)
Definition Timer_Stop (p : Platform) (t : TimerState) : TimerState * bool :=
  match t with
  | Armed => (Stopped, true)
  | Fired => if asynctimerchan p then (Fired, false) else (Stopped, true)
  | _ => (t, false)
  end.

(** The body of the [case] taken by [select], up to the return that starts
    the deferred function (one-shot) or the next iteration (ticks of an
    interval): the goroutine's new state and the new world. *)
Definition select_case (g : nat) (o : Outcome) (k : Worker) (W : World)
  : Worker * World :=
  match o, kind k with
  | Elapsed, Timeout =>
      (set_pc AtUnregister (set_timer Received k),
       submit g (runOnLoop k) (CallOnce (callback k) (args k)) W)
  | Elapsed, Interval =>
      (set_timer Armed k,
       submit g (runOnLoop k) (CallTick g (callback k) (args k)) W)
  | Cancelled, _ =>
      (set_pc AtUnregister k, submit g (runOnLoop k) Noop W)
  | Interrupted, _ =>
      (set_pc AtUnregister k,
       submit g (runOnLoop k) Noop (emit (EvWarn (kind k) (id k)) W))
  end.

(** One step of goroutine [g], currently in state [k]: its new state and
    the new world.  [None]: the goroutine is blocked or has ended.

    - [AtNew]: [time.NewTimer(d)], or [time.NewTicker(d)], which panics
      unless [d] is positive; the panic is not recovered and ends the
      process before the [defer] is reached;
    - [AtSelect]: the [select], one of whose ready cases is taken;
    - [AtUnregister], [AtTimerStop], [AtDrain]: the deferred function,
      [e.stopTimerCh(id)], then [timer.Stop()] (resp. [ticker.Stop()]),
      then, only for a one-shot timer whose [Stop] reported false, the
      receive [<-timer.C], which blocks until a value is there. *)
Definition worker_body (g : nat) (o : Outcome) (k : Worker) (W : World)
  : option (Worker * World) :=
  match pc k with
  | AtNew =>
      let d := to_Duration (platform W) (delay k) in
      match kind k with
      | Timeout => Some (set_pc AtSelect (set_timer Armed (set_timer_d d k)), W)
      | Interval =>
          if d <=? 0
          then Some (set_pc Panicked k, crash W)
          else Some (set_pc AtSelect (set_timer Armed (set_timer_d d k)), W)
      end
  | AtSelect =>
      if ready o k W then Some (select_case g o k W) else None
  | AtUnregister =>
      match stopTimerCh (id k) (store W) with
      | Ret (_, s) => Some (set_pc AtTimerStop k, set_store s W)
      | Panic => Some (set_pc Panicked k, crash W)
      end
  | AtTimerStop =>
      match kind k with
      | Timeout =>
          let '(t, stopped) := Timer_Stop (platform W) (timer k) in
          Some (set_pc (if stopped then Exited else AtDrain) (set_timer t k), W)
      | Interval => Some (set_pc Exited (set_timer Stopped k), W)
      end
  | AtDrain =>
      match timer k with
      | Fired => Some (set_pc Exited (set_timer Received k), W)
      | _ => None
      end
  | Exited => None
  | Panicked => None
  end.

Definition worker_step (g : nat) (o : Outcome) (k : Worker) (W : World)
  : option World :=
  match worker_body g o k W with
  | Some (k', W') => Some (set_goroutine g k' W')
  | None => None
  end.

(** ** The machine *)

(** The script thread, the Go runtime's timers, the timer goroutines and
    the executor take turns, one atomic step at a time.  Real time is not
    modelled: a timer that has been created may fire at any later step,
    and fires at most once unless it is a ticker, whose value is received
    and which then ticks again. *)
Inductive Action :=
| ASetTimeout (cb : Callable) (delay : float64) (args : list Value)
| AClearTimeout (id : Z)
| ASetInterval (cb : Callable) (delay : float64) (args : list Value)
| AClearInterval (id : Z)
| AInterrupt                        (* the VU context is cancelled *)
| AFire (g : nat)                   (* the runtime fires the timer of g *)
| AWorker (g : nat) (o : Outcome)   (* goroutine g runs to its next step *)
| AExec.                            (* the executor runs the head of its queue *)

Definition of_Go (W : World) (r : Go World) : World :=
  match r with
  | Ret W' => W'
  | Panic => crash W
  end.

Definition step (a : Action) (W : World) : option World :=
  if crashed W then None else
  match a with
  | ASetTimeout cb delay args => Some (snd (setTimeout cb delay args W))
  | AClearTimeout id => Some (of_Go W (clearTimeout id W))
  | ASetInterval cb delay args => Some (snd (setInterval cb delay args W))
  | AClearInterval id => Some (of_Go W (clearInterval id W))
  | AInterrupt => Some (set_ctxDone true W)
  | AFire g =>
      match goroutines W !! g with
      | Some k =>
          match timer k with
          | Armed => Some (set_goroutine g (set_timer Fired k) W)
          | _ => None
          end
      | None => None
      end
  | AWorker g o =>
      match goroutines W !! g with
      | Some k => worker_step g o k W
      | None => None
      end
  | AExec =>
      match queue W with
      | [] => None
      | f :: q =>
          let '(err, W1) := run_work f (set_queue q W) in
          Some (emit (EvReturn err) W1)
      end
  end.

Fixpoint run (acts : list Action) (W : World) : option World :=
  match acts with
  | [] => Some W
  | a :: rest =>
      match step a W with
      | Some W' => run rest W'
      | None => None
      end
  end.

(** The worlds a VU can be in. *)
Definition reachable (W : World) : Prop :=
  ∃ global p acts, run acts (new_world global p) = Some W.

(** ** Observations used by the properties *)






(** The table holds open channels only, and no channel twice. *)
Definition wf_store (s : Store) : Prop :=
  (∀ i ch, timerStops (inst s) !! i = Some ch → chans s !! ch = Some false) ∧
  (∀ i j ch, timerStops (inst s) !! i = Some ch →
             timerStops (inst s) !! j = Some ch → i = j).

(** Units of work goroutine [g] has submitted so far. *)
Definition is_submit_of (g : nat) (e : Event) : bool :=
  match e with
  | EvSubmit g' _ _ => Nat.eqb g g'
  | _ => false
  end.

Definition submissions (g : nat) (tr : list Event) : nat :=
  length (filter (λ e, is_submit_of g e = true) tr).

(** "A fresh token for the next iteration is acquired before the tick is
    submitted": whenever goroutine [g] submits a tick with token [t], the
    host has already handed [g] a later token. *)
Definition reacquired_before_submit (tr : list Event) : Prop :=
  ∀ pre post g t cb args,
    tr = pre ++ EvSubmit g t (CallTick g cb args) :: post →
    ∃ t', (t < t')%nat ∧ EvRegister g t' ∈ pre.



(** A one-shot goroutine that took the [<-timer.C] case and has not
    returned: it is somewhere in its deferred function (or has panicked
    there) and the value of its timer has been received. *)
Definition after_elapsed (k : Worker) : Prop :=
  kind k = Timeout ∧ timer k = Received ∧
  (pc k = AtUnregister ∨ pc k = AtTimerStop ∨ pc k = AtDrain ∨ pc k = Panicked).

(** ** A small script, for concrete runs *)

Definition example_callback : Callable := λ this args, (this, None).

Definition example_platform : Platform := mkPlatform AMD64 true.

Definition example_world : World := new_world 7%nat example_platform.

(** The world after a schedule (the starting world again if the schedule
    cannot be run to its end). *)
Definition after (acts : list Action) (W : World) : World :=
  default W (run acts W).

(** A one-shot timer is scheduled, its goroutine creates the timer, the
    timer fires. *)
Definition timeout_fired : list Action :=
  [ASetTimeout example_callback 0%float [1%nat; 2%nat];
   AWorker 0 Elapsed;
   AFire 0].

(** A repeating timer is scheduled, its goroutine creates the ticker, the
    ticker ticks, the goroutine handles the tick and the executor runs
    what was submitted. *)
Definition interval_armed : list Action :=
  [ASetInterval example_callback 10%float [1%nat; 2%nat];
   AWorker 0 Elapsed;
   AFire 0].

Definition interval_ticked : list Action :=
  interval_armed ++ [AWorker 0 Elapsed; AExec].





(** The actions that draw a TimerId. *)
Definition allocates (a : Action) : bool :=
  match a with
  | ASetTimeout _ _ _ | ASetInterval _ _ _ => true
  | _ => false
  end.




(** Has the goroutine not yet left its [select]? *)
Definition before_select (c : Pc) : bool :=
  match c with
  | AtNew | AtSelect => true
  | _ => false
  end.

(** Is the action the step of goroutine [g] that leaves (or, for a tick,
    passes through) the [select]? *)
Definition selects (g : nat) (a : Action) (W : World) : bool :=
  match a with
  | AWorker g' _ =>
      Nat.eqb g g' &&
      match goroutines W !! g' with
      | Some k => match pc k with AtSelect => true | _ => false end
      | None => false
      end
  | _ => false
  end.

(** Every one-shot goroutine has submitted nothing before it leaves the
    [select] and exactly one unit of work from then on. *)
Definition one_submission (W : World) : Prop :=
  (∀ g k, goroutines W !! g = Some k → kind k = Timeout →
          submissions g (trace W) = if before_select (pc k) then 0%nat else 1%nat) ∧
  (∀ g, (length (goroutines W) ≤ g)%nat → submissions g (trace W) = 0%nat).

(** The schedule in which the ticker of goroutine [g] ticks [n] times and
    the goroutine handles each tick, the executor not running. *)
Definition ticks (n : nat) (g : nat) : list Action :=
  concat (replicate n [AFire g; AWorker g Elapsed]).

(** The same with the executor running what was submitted after each
    tick. *)
Definition served_ticks (n : nat) (g : nat) : list Action :=
  concat (replicate n [AFire g; AWorker g Elapsed; AExec]).

(** What the host sees of [n] served ticks: each tick is submitted with
    the token [t] the goroutine holds, and the executor, running the
    closure, registers the token [next] and invokes the callback. *)
Fixpoint tick_rounds (n : nat) (g : nat) (cb : Callable) (a : list Value)
  (glob : Value) (t next : Token) : list Event :=
  match n with
  | O => []
  | S n =>
      [EvSubmit g t (CallTick g cb a);
       EvRegister g next;
       EvInvoke cb glob a;
       EvReturn (snd (cb glob a))]
      ++ tick_rounds n g cb a glob next (S next)
  end.

(** Every submission in the trace is made with a token that the host had
    handed out, before, for that very goroutine. *)
Definition submits_registered (tr : list Event) : Prop :=
  ∀ pre post g t f,
    tr = pre ++ EvSubmit g t f :: post → EvRegister g t ∈ pre.

(** Every goroutine holds, in [runOnLoop], a token registered for it. *)
Definition holds_registered (W : World) : Prop :=
  ∀ g k, goroutines W !! g = Some k → EvRegister g (runOnLoop k) ∈ trace W.

(** A goroutine that has not yet run its deferred [stopTimerCh] (or that
    died in a panic before it could). *)
Definition not_unregistered (c : Pc) : bool :=
  match c with
  | AtNew | AtSelect | AtUnregister | Panicked => true
  | _ => false
  end.

(** Every entry of the table is the id and the channel of a goroutine that
    has not yet unregistered. *)
Definition entries_owned (W : World) : Prop :=
  ∀ i ch, timerStops (inst (store W)) !! i = Some ch →
          ∃ g k, goroutines W !! g = Some k ∧
                 id k = i ∧ stopCh k = ch ∧
                 not_unregistered (pc k) = true.

(** Every warning in the trace was logged for a goroutine of that kind
    and id that has left its [select], with the context done. *)
Definition warnings_ok (W : World) : Prop :=
  ∀ kd i, EvWarn kd i ∈ trace W →
          ctxDone W = true ∧
          ∃ g k, goroutines W !! g = Some k ∧
                 kind k = kd ∧ id k = i ∧ before_select (pc k) = false.

(** Every goroutine has a channel of its own, made before it started. *)
Definition channels_distinct (W : World) : Prop :=
  (∀ g k, goroutines W !! g = Some k →
          (stopCh k < length (chans (store W)))%nat) ∧
  (∀ g1 g2 k1 k2, goroutines W !! g1 = Some k1 →
                  goroutines W !! g2 = Some k2 →
                  stopCh k1 = stopCh k2 → g1 = g2).

(** * Properties *)

(** ** Registry *)

Lemma wf_new_store : wf_store new_store.
Proof.
  split; intros *; cbn; rewrite lookup_empty; discriminate.
Qed.

Lemma stopTimerCh_absent (i : Z) (s : Store) :
  timerStops (inst s) !! i = None → stopTimerCh i s = Ret (false, s).
Proof. intros H. unfold stopTimerCh. by rewrite H. Qed.

Lemma stopTimerCh_present (i : Z) (ch : chan) (s : Store) :
  timerStops (inst s) !! i = Some ch →
  chans s !! ch = Some false →
  stopTimerCh i s =
    Ret (true, mkStore (mkEvents (timerStopCounter (inst s))
                                 (delete i (timerStops (inst s))))
                       (<[ch := true]> (chans s))).
Proof.
  intros H Hc. unfold stopTimerCh, close_chan. rewrite H. cbn. by rewrite Hc.
Qed.

Lemma wf_getTimerStopCh (s : Store) :
  wf_store s → wf_store (snd (getTimerStopCh s)).
Proof.
  intros [Hopen Hinj]. unfold getTimerStopCh, register_ch, make_chan,
    table_store, atomic_AddUint32; cbn.
  set (new := wrap32 (timerStopCounter (inst s) + 1)).
  assert (Hold : ∀ i ch, timerStops (inst s) !! i = Some ch →
                         (ch < length (chans s))%nat).
  { intros i ch Hi. eapply lookup_lt_Some, Hopen, Hi. }
  split; cbn.
  - intros i ch. destruct (decide (i = new)) as [->|Hne].
    + rewrite lookup_insert_eq. intros [= <-].
      rewrite lookup_app_r by lia. by rewrite Nat.sub_diag.
    + rewrite lookup_insert_ne by done. intros Hi.
      rewrite lookup_app_l by eauto. eauto.
  - intros i j ch.
    destruct (decide (i = new)) as [->|Hi], (decide (j = new)) as [->|Hj];
      rewrite ?lookup_insert_eq, ?lookup_insert_ne by done; try done.
    + intros [= <-] Hj'. apply Hold in Hj'. lia.
    + intros Hi' [= <-]. apply Hold in Hi'. lia.
    + eauto.
Qed.

Lemma wf_stopTimerCh (i : Z) (s : Store) :
  wf_store s → ∃ b s', stopTimerCh i s = Ret (b, s') ∧ wf_store s'.
Proof.
  intros Hwf. destruct (timerStops (inst s) !! i) as [ch|] eqn:Hi.
  - destruct Hwf as [Hopen Hinj].
    rewrite (stopTimerCh_present i ch s Hi (Hopen _ _ Hi)).
    eexists _, _. split; [done|]. split; cbn.
    + intros j c Hj. apply lookup_delete_Some in Hj as [Hne Hj].
      rewrite list_lookup_insert_ne; [eauto|].
      intros ->. apply Hne. eauto.
    + intros j1 j2 c H1 H2.
      apply lookup_delete_Some in H1 as [_ H1].
      apply lookup_delete_Some in H2 as [_ H2]. eauto.
  - rewrite (stopTimerCh_absent i s Hi). eauto.
Qed.

(** C1: [stopTimerCh] looks the id up; absent: it returns false and changes
    nothing; present: it returns true, the entry is gone, the entry's
    channel has gone from open to closed, and nothing else has changed. *)
Theorem stopTimerCh_lookup_remove_close (i : Z) (s : Store) :
  wf_store s →
  match timerStops (inst s) !! i with
  | None => stopTimerCh i s = Ret (false, s)
  | Some ch =>
      ∃ s', stopTimerCh i s = Ret (true, s') ∧
            timerStops (inst s') = delete i (timerStops (inst s)) ∧
            timerStops (inst s') !! i = None ∧
            signaled s ch = false ∧ signaled s' ch = true ∧
            (∀ c, c ≠ ch → chans s' !! c = chans s !! c) ∧
            timerStopCounter (inst s') = timerStopCounter (inst s)
  end.
Proof.
  intros [Hopen _]. destruct (timerStops (inst s) !! i) as [ch|] eqn:Hi.
  - pose proof (Hopen _ _ Hi) as Hc.
    eexists. split; [by apply stopTimerCh_present|]. cbn.
    split; [done|]. split; [apply lookup_delete_eq|].
    unfold signaled; cbn. rewrite Hc.
    rewrite list_lookup_insert_eq by (by eapply lookup_lt_Some).
    repeat split; try done.
    intros c Hne. by rewrite list_lookup_insert_ne.
  - by apply stopTimerCh_absent.
Qed.

Lemma stopTimerCh_lookup_remove_close_witness :
  let s := snd (getTimerStopCh new_store) in
  wf_store s ∧
  ∃ s', stopTimerCh 1 s = Ret (true, s') ∧
        timerStops (inst s') = delete 1 (timerStops (inst s)) ∧
        timerStops (inst s') !! 1 = None ∧
        signaled s 0%nat = false ∧ signaled s' 0%nat = true ∧
        (∀ c, c ≠ 0%nat → chans s' !! c = chans s !! c) ∧
        timerStopCounter (inst s') = timerStopCounter (inst s).
Proof.
  intros s.
  assert (Hwf : wf_store s) by apply wf_getTimerStopCh, wf_new_store.
  split; [exact Hwf|].
  exact (stopTimerCh_lookup_remove_close 1 s Hwf).
Defined.

(** C6: cancelling is idempotent.  Once the entry of an id is gone,
    whether [stopTimerCh] removed it for the script or for the goroutine
    that ended, every further [stopTimerCh] on that id returns false
    without a panic and leaves the instance and the channels as they are;
    in particular a cancel that succeeded is followed by cancels that do
    nothing. *)
Theorem stopTimerCh_idempotent (i : Z) (s : Store) :
  (timerStops (inst s) !! i = None → stopTimerCh i s = Ret (false, s)) ∧
  (∀ b s', stopTimerCh i s = Ret (b, s') →
           timerStops (inst s') !! i = None ∧
           stopTimerCh i s' = Ret (false, s')).
Proof.
  split; [apply stopTimerCh_absent|].
  intros b s' H.
  assert (Hgone : timerStops (inst s') !! i = None).
  { unfold stopTimerCh in H.
    destruct (timerStops (inst s) !! i) as [ch|] eqn:Hi.
    - unfold close_chan in H; cbn in H.
      destruct (chans s !! ch) as [[]|]; try discriminate.
      injection H as <- <-. cbn. apply lookup_delete_eq.
    - by injection H as <- <-. }
  split; [done|]. by apply stopTimerCh_absent.
Qed.

Lemma stopTimerCh_idempotent_witness :
  let s := snd (getTimerStopCh new_store) in
  (timerStops (inst new_store) !! 1 = None ∧
   stopTimerCh 1 new_store = Ret (false, new_store)) ∧
  ∃ s', stopTimerCh 1 s = Ret (true, s') ∧
        timerStops (inst s') !! 1 = None ∧
        stopTimerCh 1 s' = Ret (false, s').
Proof.
  intros s. split.
  - split; [reflexivity|].
    exact (proj1 (stopTimerCh_idempotent 1 new_store) eq_refl).
  - eexists. split; [reflexivity|].
    exact (proj2 (stopTimerCh_idempotent 1 s) true _ eq_refl).
Defined.

(** ** Durations *)

Lemma trunc_finite_negative (m : positive) (e : Z) : trunc_finite true m e <= 0.
Proof.
  unfold trunc_finite. destruct (0 <=? e) eqn:He.
  - apply Z.leb_le in He.
    pose proof (Z.pow_nonneg 2 e ltac:(lia)). nia.
  - apply Z.leb_gt in He.
    assert (0 < 2 ^ (- e)) by (apply Z.pow_pos_nonneg; lia).
    pose proof (Z.div_pos (Z.pos m) (2 ^ (- e)) ltac:(lia) ltac:(lia)). lia.
Qed.

Lemma out_of_range_nonpositive (a : Arch) (sign : option bool) :
  sign ≠ Some false → out_of_range a sign <= 0.
Proof.
  unfold int64_min. destruct a, sign as [[]|]; cbn; intros; try done.
Qed.

(** A product of a float that is at most zero with the (positive, finite)
    number of nanoseconds in a millisecond is a zero, a NaN, or negative. *)
Lemma SF64mul_nonpositive (x : spec_float) :
  SFleb x (Prim2SF 0%float) = true →
  match SF64mul x (Prim2SF Millisecond) with
  | S754_infinity false | S754_finite false _ _ => False
  | _ => True
  end.
Proof.
  change (Prim2SF 0%float) with (S754_zero false).
  change (Prim2SF Millisecond) with (S754_finite false 8589934592000000 (-33)).
  destruct x as [s| [] | | [] m e]; try done.
  intros _. unfold SF64mul, SFmul, binary_round_aux.
  cbv beta iota delta [xorb].
  do 2 destruct shr_fexp as [? ?].
  destruct (shr_m _); [done | | done].
  by destruct (_ <=? _).
Qed.

Lemma to_Duration_nonpositive (p : Platform) (delay : float64) :
  (delay <=? 0)%float = true → to_Duration p delay <= 0.
Proof.
  rewrite leb_spec. intros H%SF64mul_nonpositive.
  unfold to_Duration, float64_to_int64. rewrite mul_spec.
  destruct (SF64mul _ _) as [s|[]| |[] m e]; try done.
  - by apply out_of_range_nonpositive.
  - by apply out_of_range_nonpositive.
  - cbv zeta. pose proof (trunc_finite_negative m e).
    destruct (_ && _); [done|]. by apply out_of_range_nonpositive.
Qed.

(** ** How a step of the machine touches one goroutine *)

Lemma set_runOnLoop_same (k : Worker) : set_runOnLoop (runOnLoop k) k = k.
Proof. by destruct k. Qed.

Lemma worker_body_goroutines g o k W k' W' :
  worker_body g o k W = Some (k', W') → goroutines W' = goroutines W.
Proof.
  unfold worker_body, select_case. intros H.
  repeat (case_match; simplify_eq); done.
Qed.

Lemma run_work_lookup f W err W' g k :
  run_work f W = (err, W') →
  goroutines W !! g = Some k →
  ∃ t, goroutines W' !! g = Some (set_runOnLoop t k).
Proof.
  intros H Hg. destruct f as [|cb a|g' cb a]; cbn in H; unfold call in H.
  - simplify_eq. exists (runOnLoop k). by rewrite set_runOnLoop_same.
  - simplify_eq. exists (runOnLoop k). by rewrite set_runOnLoop_same.
  - destruct (goroutines W !! g') as [k0|] eqn:Hg'; simplify_eq; cbn.
    + destruct (decide (g' = g)) as [->|Hne].
      * simplify_eq. exists (tokens W).
        apply list_lookup_insert_eq. by eapply lookup_lt_Some.
      * exists (runOnLoop k).
        by rewrite list_lookup_insert_ne, set_runOnLoop_same.
    + exists (runOnLoop k). by rewrite set_runOnLoop_same.
Qed.

(** A step leaves goroutine [g] alone (up to the token the executor may
    store for it), unless it is the firing of g's timer or a step of g. *)
Lemma step_lookup a W W' g k :
  step a W = Some W' →
  goroutines W !! g = Some k →
  ∃ k', goroutines W' !! g = Some k' ∧
    (((∀ o, a ≠ AWorker g o) ∧ ∃ t, k' = set_runOnLoop t k) ∨
     (a = AFire g ∧ timer k = Armed ∧ k' = set_timer Fired k) ∨
     (∃ o W1, a = AWorker g o ∧ worker_body g o k W = Some (k', W1))).
Proof.
  intros Hstep Hg. unfold step in Hstep.
  destruct (crashed W); [done|].
  assert (Hsame : ∃ t, k = set_runOnLoop t k)
    by (exists (runOnLoop k); by rewrite set_runOnLoop_same).
  destruct a as [cb d a|i|cb d a|i| |g'|g' o| ].
  - simplify_eq. exists k. split; [|by left].
    unfold setTimeout; cbn. by apply lookup_app_l_Some.
  - simplify_eq. exists k. split; [|by left].
    unfold clearTimeout. by repeat (case_match; cbn).
  - simplify_eq. exists k. split; [|by left].
    unfold setInterval; cbn. by apply lookup_app_l_Some.
  - simplify_eq. exists k. split; [|by left].
    unfold clearInterval. by repeat (case_match; cbn).
  - simplify_eq. exists k. split; [done|by left].
  - destruct (goroutines W !! g') as [k0|] eqn:Hg'; [|done].
    destruct (timer k0) eqn:Ht; simplify_eq. cbn.
    destruct (decide (g' = g)) as [->|Hne].
    + simplify_eq. eexists. split.
      * apply list_lookup_insert_eq. by eapply lookup_lt_Some.
      * right; left. done.
    + exists k. split; [by rewrite list_lookup_insert_ne|by left].
  - destruct (goroutines W !! g') as [k0|] eqn:Hg'; [|done].
    unfold worker_step in Hstep.
    destruct (worker_body g' o k0 W) as [[k' W1]|] eqn:Hb; simplify_eq.
    pose proof (worker_body_goroutines _ _ _ _ _ _ Hb) as Hgs. cbn.
    rewrite Hgs.
    destruct (decide (g' = g)) as [->|Hne].
    + simplify_eq. exists k'. split.
      * apply list_lookup_insert_eq. by eapply lookup_lt_Some.
      * right; right. eauto.
    + exists k. split; [by rewrite list_lookup_insert_ne|left].
      split; [|done]. by intros o' [= ?].
  - destruct (queue W) as [|f q]; [done|].
    destruct (run_work f (set_queue q W)) as [err W1] eqn:Hr. simplify_eq.
    destruct (run_work_lookup _ _ _ _ g k Hr Hg) as [t Ht].
    eexists. split; [exact Ht|]. left. split; [done|eauto].
Qed.

(** ** The one-shot goroutine after its timer has elapsed *)

Lemma after_elapsed_body g o k W k' W' :
  after_elapsed k → worker_body g o k W = Some (k', W') → after_elapsed k'.
Proof.
  intros (Hk & Ht & Hpc) H. unfold worker_body in H.
  destruct Hpc as [Hpc|[Hpc|[Hpc|Hpc]]]; rewrite Hpc in H.
  - repeat (case_match; simplify_eq); unfold after_elapsed; cbn; tauto.
  - rewrite Hk, Ht in H. cbn in H. simplify_eq.
    unfold after_elapsed; cbn. tauto.
  - by rewrite Ht in H.
  - done.
Qed.

Lemma after_elapsed_step a W W' g k :
  step a W = Some W' →
  goroutines W !! g = Some k → after_elapsed k →
  ∃ k', goroutines W' !! g = Some k' ∧ after_elapsed k'.
Proof.
  intros Hstep Hg Hk.
  destruct (step_lookup _ _ _ _ _ Hstep Hg)
    as (k' & Hg' & [(_ & t & ->)|[(_ & Ht & _)|(o & W1 & _ & Hb)]]).
  - exists (set_runOnLoop t k). split; [done|].
    destruct Hk as (? & ? & ?). by unfold after_elapsed; cbn.
  - destruct Hk as (_ & Hr & _). congruence.
  - exists k'. split; [done|]. by eapply after_elapsed_body.
Qed.

Lemma after_elapsed_run acts W W' g k :
  run acts W = Some W' →
  goroutines W !! g = Some k → after_elapsed k →
  ∃ k', goroutines W' !! g = Some k' ∧ after_elapsed k'.
Proof.
  revert W k. induction acts as [|a acts IH]; intros W k Hrun Hg Hk; cbn in Hrun.
  - simplify_eq. eauto.
  - destruct (step a W) as [W1|] eqn:Hstep; [|done].
    destruct (after_elapsed_step _ _ _ _ _ Hstep Hg Hk) as (k1 & Hg1 & Hk1).
    eauto.
Qed.

Lemma elapsed_case_after_elapsed g k W W1 :
  goroutines W !! g = Some k → kind k = Timeout → pc k = AtSelect →
  step (AWorker g Elapsed) W = Some W1 →
  ∃ k1, goroutines W1 !! g = Some k1 ∧ after_elapsed k1 ∧
        trace W1 = trace W ++ [EvSubmit g (runOnLoop k)
                                 (CallOnce (callback k) (args k))].
Proof.
  intros Hg Hk Hpc Hstep. unfold step in Hstep.
  destruct (crashed W); [done|]. rewrite Hg in Hstep.
  unfold worker_step, worker_body in Hstep. rewrite Hpc in Hstep.
  destruct (ready Elapsed k W); [|done].
  unfold select_case in Hstep. rewrite Hk in Hstep. simplify_eq. cbn.
  eexists. split; [apply list_lookup_insert_eq; by eapply lookup_lt_Some|].
  split; [|done]. unfold after_elapsed; cbn. tauto.
Qed.

(** C5, at the failing outcome: when the [select] of a one-shot goroutine
    takes the [<-timer.C] case, the goroutine submits its one unit of work,
    the call of the callback, and from then on no schedule of the machine
    brings it to [Exited]: it never reaches its terminal state. *)
Theorem timeout_elapsed_never_exits g k W W1 acts W' :
  goroutines W !! g = Some k → kind k = Timeout → pc k = AtSelect →
  step (AWorker g Elapsed) W = Some W1 →
  run acts W1 = Some W' →
  submissions g (trace W1) = S (submissions g (trace W)) ∧
  ∃ k', goroutines W' !! g = Some k' ∧ pc k' ≠ Exited.
Proof.
  intros Hg Hk Hpc Hstep Hrun.
  destruct (elapsed_case_after_elapsed _ _ _ _ Hg Hk Hpc Hstep)
    as (k1 & Hg1 & Hk1 & Htr).
  split.
  - rewrite Htr. unfold submissions. rewrite filter_app, length_app.
    cbn. rewrite Nat.eqb_refl. rewrite decide_True by done. cbn. lia.
  - destruct (after_elapsed_run _ _ _ _ _ Hrun Hg1 Hk1) as (k' & Hg' & Hk').
    exists k'. split; [done|].
    destruct Hk' as (_ & _ & [->|[->|[->| ->]]]); done.
Qed.

Lemma timeout_elapsed_never_exits_witness :
  let W := after timeout_fired example_world in
  let k := mkWorker Timeout 1 0%nat example_callback [1%nat; 2%nat] 0%float
                    0%nat Fired 0 AtSelect in
  let W1 := after [AWorker 0 Elapsed] W in
  let W' := after [AWorker 0 Elapsed; AWorker 0 Elapsed] W1 in
  (goroutines W !! 0%nat = Some k ∧ kind k = Timeout ∧ pc k = AtSelect ∧
   step (AWorker 0 Elapsed) W = Some W1 ∧
   run [AWorker 0 Elapsed; AWorker 0 Elapsed] W1 = Some W') ∧
  submissions 0 (trace W1) = S (submissions 0 (trace W)) ∧
  ∃ k', goroutines W' !! 0%nat = Some k' ∧ pc k' ≠ Exited.
Proof.
  intros W k W1 W'.
  assert (H1 : goroutines W !! 0%nat = Some k) by (vm_compute; reflexivity).
  assert (H2 : step (AWorker 0 Elapsed) W = Some W1)
    by (vm_compute; reflexivity).
  assert (H3 : run [AWorker 0 Elapsed; AWorker 0 Elapsed] W1 = Some W')
    by (vm_compute; reflexivity).
  split; [done|].
  exact (timeout_elapsed_never_exits 0 k W W1 _ W' H1 eq_refl eq_refl H2 H3).
Defined.

(** ** Running one goroutine step by step *)

Lemma step_worker g o k W :
  crashed W = false → goroutines W !! g = Some k →
  step (AWorker g o) W = worker_step g o k W.
Proof. intros Hc Hg. unfold step. by rewrite Hc, Hg. Qed.

Lemma step_fire g k W :
  crashed W = false → goroutines W !! g = Some k →
  step (AFire g) W =
    match timer k with
    | Armed => Some (set_goroutine g (set_timer Fired k) W)
    | _ => None
    end.
Proof. intros Hc Hg. unfold step. by rewrite Hc, Hg. Qed.

Lemma lookup_set_goroutine g k k' W :
  goroutines W !! g = Some k →
  goroutines (set_goroutine g k' W) !! g = Some k'.
Proof.
  intros Hg. cbn. apply list_lookup_insert_eq. by eapply lookup_lt_Some.
Qed.

Lemma stopTimerCh_gone i s b s' :
  stopTimerCh i s = Ret (b, s') → timerStops (inst s') !! i = None.
Proof.
  intros H. unfold stopTimerCh, close_chan in H.
  destruct (timerStops (inst s) !! i) as [ch|] eqn:Hi; cbn in H.
  - destruct (chans s !! ch) as [[]|]; simplify_eq. cbn. apply lookup_delete_eq.
  - by simplify_eq.
Qed.

(** C2, at the failing outcome: a one-shot goroutine whose [select] takes
    the [<-timer.C] case runs its deferred function as far as the receive:
    [stopTimerCh] has removed its entry, [timer.Stop()] has reported false
    because the timer has expired, and the goroutine then waits in
    [<-timer.C] for a value that the [select] has already received.  It can
    take no further step and its timer cannot fire again: the goroutine
    does not terminate. *)
Theorem timeout_elapsed_blocks_in_drain g k W :
  crashed W = false → wf_store (store W) →
  goroutines W !! g = Some k →
  kind k = Timeout → pc k = AtSelect → timer k = Fired →
  ∃ W3 k3,
    run [AWorker g Elapsed; AWorker g Elapsed; AWorker g Elapsed] W = Some W3 ∧
    goroutines W3 !! g = Some k3 ∧
    pc k3 = AtDrain ∧ timer k3 = Received ∧
    timerStops (inst (store W3)) !! id k = None ∧
    crashed W3 = false ∧
    (∀ o, step (AWorker g o) W3 = None) ∧
    step (AFire g) W3 = None.
Proof.
  intros Hc Hwf Hg Hk Hpc Ht.
  destruct (wf_stopTimerCh (id k) (store W) Hwf) as (b & s' & Hstop & _).
  pose proof (stopTimerCh_gone _ _ _ _ Hstop) as Hgone.
  set (k1 := set_pc AtUnregister (set_timer Received k)).
  set (W1 := set_goroutine g k1
               (submit g (runOnLoop k) (CallOnce (callback k) (args k)) W)).
  set (k2 := set_pc AtTimerStop k1).
  set (W2 := set_goroutine g k2 (set_store s' W1)).
  set (k3 := set_pc AtDrain (set_timer Received k2)).
  set (W3 := set_goroutine g k3 W2).
  assert (H1 : step (AWorker g Elapsed) W = Some W1).
  { rewrite (step_worker g Elapsed k W Hc Hg).
    unfold worker_step, worker_body, ready, select_case.
    by rewrite Hpc, Ht, Hk. }
  assert (Hg1 : goroutines W1 !! g = Some k1)
    by (by eapply lookup_set_goroutine).
  assert (H2 : step (AWorker g Elapsed) W1 = Some W2).
  { rewrite (step_worker g Elapsed k1 W1 Hc Hg1).
    unfold worker_step, worker_body. cbn. by rewrite Hstop. }
  assert (Hg2 : goroutines W2 !! g = Some k2)
    by (by eapply lookup_set_goroutine).
  assert (H3 : step (AWorker g Elapsed) W2 = Some W3).
  { rewrite (step_worker g Elapsed k2 W2 Hc Hg2).
    unfold worker_step, worker_body. cbn. by rewrite Hk. }
  assert (Hg3 : goroutines W3 !! g = Some k3)
    by (by eapply lookup_set_goroutine).
  exists W3, k3. cbn [run]. rewrite H1, H2, H3.
  repeat split; try done.
  - intros o. by rewrite (step_worker g o k3 W3 Hc Hg3).
  - by rewrite (step_fire g k3 W3 Hc Hg3).
Qed.

Lemma timeout_elapsed_blocks_in_drain_witness :
  let W := after timeout_fired example_world in
  let k := mkWorker Timeout 1 0%nat example_callback [1%nat; 2%nat] 0%float
                    0%nat Fired 0 AtSelect in
  (crashed W = false ∧ wf_store (store W) ∧
   goroutines W !! 0%nat = Some k ∧
   kind k = Timeout ∧ pc k = AtSelect ∧ timer k = Fired) ∧
  ∃ W3 k3,
    run [AWorker 0 Elapsed; AWorker 0 Elapsed; AWorker 0 Elapsed] W = Some W3 ∧
    goroutines W3 !! 0%nat = Some k3 ∧
    pc k3 = AtDrain ∧ timer k3 = Received ∧
    timerStops (inst (store W3)) !! id k = None ∧
    crashed W3 = false ∧
    (∀ o, step (AWorker 0 o) W3 = None) ∧
    step (AFire 0) W3 = None.
Proof.
  intros W k.
  assert (Hwf : wf_store (store W))
    by (change (store W) with (snd (getTimerStopCh new_store));
        apply wf_getTimerStopCh, wf_new_store).
  assert (Hg : goroutines W !! 0%nat = Some k) by (vm_compute; reflexivity).
  split; [done|].
  exact (timeout_elapsed_blocks_in_drain 0 k W eq_refl Hwf Hg
           eq_refl eq_refl eq_refl).
Defined.

(** ** The exported entry points *)

(** C8: [clearTimeout] and [clearInterval] are one and the same operation
    on the shared table: they agree on every id and every world, and for a
    live id either of them removes the entry and closes its channel,
    whichever kind of timer the id belongs to, so that the goroutine's
    [select] can take the cancellation case. *)
Theorem clearTimeout_clearInterval_same (i : Z) (W : World) :
  clearTimeout i W = clearInterval i W ∧
  ∀ g k, wf_store (store W) →
         goroutines W !! g = Some k → id k = i →
         timerStops (inst (store W)) !! i = Some (stopCh k) →
         ∃ W', clearTimeout i W = Ret W' ∧ clearInterval i W = Ret W' ∧
               timerStops (inst (store W')) !! i = None ∧
               ready Cancelled k W' = true.
Proof.
  split; [reflexivity|].
  intros g k [Hopen _] _ _ Hi.
  pose proof (Hopen _ _ Hi) as Hc.
  unfold clearTimeout, clearInterval.
  rewrite (stopTimerCh_present i (stopCh k) (store W) Hi Hc).
  eexists. split; [done|]. split; [done|]. cbn.
  split; [apply lookup_delete_eq|].
  unfold signaled; cbn.
  by rewrite list_lookup_insert_eq by (by eapply lookup_lt_Some).
Qed.

Lemma clearTimeout_clearInterval_same_witness :
  let W := after timeout_fired example_world in
  let k := mkWorker Timeout 1 0%nat example_callback [1%nat; 2%nat] 0%float
                    0%nat Fired 0 AtSelect in
  (wf_store (store W) ∧ goroutines W !! 0%nat = Some k ∧ id k = 1 ∧
   timerStops (inst (store W)) !! 1 = Some (stopCh k)) ∧
  ∃ W', clearTimeout 1 W = Ret W' ∧ clearInterval 1 W = Ret W' ∧
        timerStops (inst (store W')) !! 1 = None ∧
        ready Cancelled k W' = true.
Proof.
  intros W k.
  assert (Hwf : wf_store (store W))
    by (change (store W) with (snd (getTimerStopCh new_store));
        apply wf_getTimerStopCh, wf_new_store).
  assert (Hg : goroutines W !! 0%nat = Some k) by (vm_compute; reflexivity).
  assert (Hi : timerStops (inst (store W)) !! 1 = Some (stopCh k))
    by (vm_compute; reflexivity).
  split; [done|].
  exact (proj2 (clearTimeout_clearInterval_same 1 W) 0%nat k Hwf Hg eq_refl Hi).
Defined.

(** C7: a negative delay is not rejected; [setTimeout] treats it exactly
    as the delay zero (same id, same world), and the id it returns is
    registered with an open channel and carried by the new goroutine. *)
Theorem setTimeout_negative_delay_is_zero cb (d : float64) a W :
  (d <? 0)%float = true →
  setTimeout cb d a W = setTimeout cb 0%float a W ∧
  ∃ k, goroutines (snd (setTimeout cb d a W)) !! length (goroutines W) = Some k ∧
       kind k = Timeout ∧ delay k = 0%float ∧
       id k = fst (setTimeout cb d a W) ∧
       callback k = cb ∧ args k = a ∧
       timerStops (inst (store (snd (setTimeout cb d a W)))) !! id k
         = Some (stopCh k) ∧
       signaled (store (snd (setTimeout cb d a W))) (stopCh k) = false.
Proof.
  intros Hneg. unfold setTimeout. rewrite Hneg.
  change (0 <? 0)%float with false. cbn.
  split; [done|]. eexists. split.
  - rewrite lookup_app_r by lia. rewrite Nat.sub_diag. reflexivity.
  - cbn. repeat split.
    + apply lookup_insert_eq.
    + unfold signaled; cbn. rewrite lookup_app_r by lia.
      by rewrite Nat.sub_diag.
Qed.

Lemma setTimeout_negative_delay_is_zero_witness :
  ((-5) <? 0)%float = true ∧
  setTimeout example_callback (-5)%float [1%nat] example_world
    = setTimeout example_callback 0%float [1%nat] example_world ∧
  ∃ k, goroutines (snd (setTimeout example_callback (-5)%float [1%nat]
                          example_world))
         !! length (goroutines example_world) = Some k ∧
       kind k = Timeout ∧ delay k = 0%float ∧
       id k = fst (setTimeout example_callback (-5)%float [1%nat] example_world) ∧
       callback k = example_callback ∧ args k = [1%nat] ∧
       timerStops (inst (store (snd (setTimeout example_callback (-5)%float
                                       [1%nat] example_world)))) !! id k
         = Some (stopCh k) ∧
       signaled (store (snd (setTimeout example_callback (-5)%float [1%nat]
                                example_world))) (stopCh k) = false.
Proof.
  split; [reflexivity|].
  exact (setTimeout_negative_delay_is_zero example_callback (-5)%float
           [1%nat] example_world eq_refl).
Defined.

Lemma step_crashed a W : crashed W = true → step a W = None.
Proof. intros H. unfold step. by rewrite H. Qed.

(** C9: [setInterval] hands the period on as it is.  With a period that is
    at most zero the call still returns an id and starts the goroutine,
    whose first step, [time.NewTicker], panics: no ticker exists, the
    process is gone, and nothing is scheduled or returned as an error. *)
Theorem setInterval_nonpositive_period_panics cb (d : float64) a W :
  crashed W = false →
  (d <=? 0)%float = true →
  let g := length (goroutines W) in
  let W1 := snd (setInterval cb d a W) in
  step (ASetInterval cb d a) W = Some W1 ∧
  crashed W1 = false ∧
  ∃ k, goroutines W1 !! g = Some k ∧
       kind k = Interval ∧ pc k = AtNew ∧ delay k = d ∧ timer k = Unset ∧
       id k = fst (setInterval cb d a W) ∧
       ∀ o, ∃ W2 k2,
         step (AWorker g o) W1 = Some W2 ∧
         crashed W2 = true ∧
         goroutines W2 !! g = Some k2 ∧ pc k2 = Panicked ∧ timer k2 = Unset ∧
         trace W2 = trace W1 ∧ queue W2 = queue W1 ∧
         ∀ act, step act W2 = None.
Proof.
  intros Hc Hd g W1.
  assert (Hstep : step (ASetInterval cb d a) W = Some W1)
    by (unfold step; by rewrite Hc).
  split; [done|]. split; [done|].
  set (k := mkWorker Interval (fst (setInterval cb d a W))
              (length (chans (store W))) cb a d (tokens W) Unset 0 AtNew).
  assert (Hg : goroutines W1 !! g = Some k).
  { subst W1 g k. unfold setInterval. cbn.
    rewrite lookup_app_r by lia. by rewrite Nat.sub_diag. }
  exists k. split; [done|]. repeat split.
  intros o.
  pose proof (to_Duration_nonpositive (platform W1) d Hd) as Hle.
  apply Z.leb_le in Hle.
  exists (set_goroutine g (set_pc Panicked k) (crash W1)), (set_pc Panicked k).
  split.
  { rewrite (step_worker g o k W1 Hc Hg).
    unfold worker_step, worker_body. cbn [pc kind k delay].
    by rewrite Hle. }
  split; [done|]. split.
  { apply lookup_set_goroutine with (k := k). exact Hg. }
  repeat split; intros; by apply step_crashed.
Qed.

Lemma setInterval_nonpositive_period_panics_witness :
  let cb := example_callback in
  let W := example_world in
  let g := length (goroutines W) in
  let W1 := snd (setInterval cb 0%float [] W) in
  (crashed W = false ∧ (0 <=? 0)%float = true) ∧
  step (ASetInterval cb 0%float []) W = Some W1 ∧
  crashed W1 = false ∧
  ∃ k, goroutines W1 !! g = Some k ∧
       kind k = Interval ∧ pc k = AtNew ∧ delay k = 0%float ∧ timer k = Unset ∧
       id k = fst (setInterval cb 0%float [] W) ∧
       ∀ o, ∃ W2 k2,
         step (AWorker g o) W1 = Some W2 ∧
         crashed W2 = true ∧
         goroutines W2 !! g = Some k2 ∧ pc k2 = Panicked ∧ timer k2 = Unset ∧
         trace W2 = trace W1 ∧ queue W2 = queue W1 ∧
         ∀ act, step act W2 = None.
Proof.
  intros cb W g W1. split; [split; reflexivity|].
  exact (setInterval_nonpositive_period_panics cb 0%float [] W eq_refl eq_refl).
Defined.

(** ** Ticks of a repeating timer *)

(** C3, as stated, fails: in the run [interval_ticked] the one tick is
    submitted with token 0 while no later token has been handed out; token
    1 is registered only afterwards, when the executor runs the submitted
    closure. *)
Lemma reacquired_before_submit_fails :
  trace (after interval_ticked example_world) =
    [EvRegister 0 0%nat;
     EvSubmit 0 0%nat (CallTick 0 example_callback [1%nat; 2%nat]);
     EvRegister 0 1%nat;
     EvInvoke example_callback 7%nat [1%nat; 2%nat];
     EvReturn None] ∧
  ¬ reacquired_before_submit (trace (after interval_ticked example_world)).
Proof.
  assert (Htr : trace (after interval_ticked example_world) =
    [EvRegister 0 0%nat] ++
     EvSubmit 0 0%nat (CallTick 0 example_callback [1%nat; 2%nat]) ::
    [EvRegister 0 1%nat;
     EvInvoke example_callback 7%nat [1%nat; 2%nat];
     EvReturn None]) by (vm_compute; reflexivity).
  split; [exact Htr|].
  intros H. destruct (H _ _ _ _ _ _ Htr) as (t' & Hlt & Hin).
  apply list_elem_of_singleton in Hin. injection Hin as ->. lia.
Qed.

Lemma exec_tick g cb a W q :
  crashed W = false →
  queue W = CallTick g cb a :: q →
  ∃ W', step AExec W = Some W' ∧
        trace W' = trace W ++
          [EvRegister g (tokens W);
           EvInvoke cb (globalObject W) a;
           EvReturn (snd (cb (globalObject W) a))] ∧
        tokens W' = S (tokens W) ∧
        queue W' = q ∧
        ∀ k, goroutines W !! g = Some k →
             goroutines W' !! g = Some (set_runOnLoop (tokens W) k).
Proof.
  intros Hc Hq. unfold step. rewrite Hc, Hq. cbn [run_work RegisterCallback].
  destruct (goroutines W !! g) as [k|] eqn:Hg; cbn; rewrite Hg.
  - eexists. split; [reflexivity|]. cbn. rewrite <- !app_assoc. cbn.
    repeat split. intros ? [= <-].
    apply list_lookup_insert_eq. by eapply lookup_lt_Some.
  - eexists. split; [reflexivity|]. cbn. rewrite <- !app_assoc. cbn.
    repeat split. intros ? [=].
Qed.

(** C3, amended: when the goroutine of a repeating timer handles a tick it
    submits the closure with the token it already holds and acquires
    nothing; the fresh token for the next iteration is registered by the
    submitted closure itself, when the executor runs it, after the
    submission and immediately before the callback is invoked, and is
    stored in the goroutine's [runOnLoop]. *)
Theorem tick_reacquires_inside_submitted_work g k W W2 q :
  crashed W = false → goroutines W !! g = Some k →
  kind k = Interval → pc k = AtSelect → timer k = Fired →
  crashed W2 = false →
  queue W2 = CallTick g (callback k) (args k) :: q →
  ∃ W1 W3,
    step (AWorker g Elapsed) W = Some W1 ∧
    trace W1 = trace W ++
      [EvSubmit g (runOnLoop k) (CallTick g (callback k) (args k))] ∧
    queue W1 = queue W ++ [CallTick g (callback k) (args k)] ∧
    tokens W1 = tokens W ∧
    goroutines W1 !! g = Some (set_timer Armed k) ∧
    step AExec W2 = Some W3 ∧
    trace W3 = trace W2 ++
      [EvRegister g (tokens W2);
       EvInvoke (callback k) (globalObject W2) (args k);
       EvReturn (snd (callback k (globalObject W2) (args k)))] ∧
    tokens W3 = S (tokens W2) ∧
    queue W3 = q ∧
    ∀ k2, goroutines W2 !! g = Some k2 →
          goroutines W3 !! g = Some (set_runOnLoop (tokens W2) k2).
Proof.
  intros Hc Hg Hk Hpc Ht Hc2 Hq.
  destruct (exec_tick _ _ _ _ _ Hc2 Hq) as (W3 & Hexec).
  eexists _, W3. split.
  { rewrite (step_worker g Elapsed k W Hc Hg).
    unfold worker_step, worker_body, ready, select_case.
    rewrite Hpc, Ht, Hk. reflexivity. }
  split; [done|]. split; [done|]. split; [done|].
  split; [by eapply lookup_set_goroutine|]. exact Hexec.
Qed.

Lemma tick_reacquires_inside_submitted_work_witness :
  let W := after interval_armed example_world in
  let k := mkWorker Interval 1 0%nat example_callback [1%nat; 2%nat] 10%float
                    0%nat Fired 10000000 AtSelect in
  let W2 := after [AWorker 0 Elapsed] W in
  (crashed W = false ∧ goroutines W !! 0%nat = Some k ∧
   kind k = Interval ∧ pc k = AtSelect ∧ timer k = Fired ∧
   crashed W2 = false ∧
   queue W2 = CallTick 0 (callback k) (args k) :: []) ∧
  ∃ W1 W3,
    step (AWorker 0 Elapsed) W = Some W1 ∧
    trace W1 = trace W ++
      [EvSubmit 0 (runOnLoop k) (CallTick 0 (callback k) (args k))] ∧
    queue W1 = queue W ++ [CallTick 0 (callback k) (args k)] ∧
    tokens W1 = tokens W ∧
    goroutines W1 !! 0%nat = Some (set_timer Armed k) ∧
    step AExec W2 = Some W3 ∧
    trace W3 = trace W2 ++
      [EvRegister 0 (tokens W2);
       EvInvoke (callback k) (globalObject W2) (args k);
       EvReturn (snd (callback k (globalObject W2) (args k)))] ∧
    tokens W3 = S (tokens W2) ∧
    queue W3 = [] ∧
    ∀ k2, goroutines W2 !! 0%nat = Some k2 →
          goroutines W3 !! 0%nat = Some (set_runOnLoop (tokens W2) k2).
Proof.
  intros W k W2.
  assert (Hg : goroutines W !! 0%nat = Some k) by (vm_compute; reflexivity).
  assert (Hq : queue W2 = CallTick 0 (callback k) (args k) :: [])
    by (vm_compute; reflexivity).
  assert (Hc : crashed W = false) by (vm_compute; reflexivity).
  assert (Hc2 : crashed W2 = false) by (vm_compute; reflexivity).
  split; [repeat split; assumption || reflexivity|].
  exact (tick_reacquires_inside_submitted_work 0 k W W2 [] Hc Hg
           eq_refl eq_refl eq_refl Hc2 Hq).
Defined.

(** ** Callback invocations *)

Section Invocations.
Variable P : Callable → list Value → Prop.



End Invocations.




(** ** Timer ids *)

Local Abbreviation counter W := (timerStopCounter (inst (store W))).



Lemma run_work_store f W err W' :
  run_work f W = (err, W') → store W' = store W.
Proof.
  destruct f; cbn; unfold call; intros H;
    repeat case_match; by simplify_eq.
Qed.















(** ** Worlds a VU can reach *)

Lemma worker_body_wf g o k W k' W' :
  worker_body g o k W = Some (k', W') →
  wf_store (store W) → wf_store (store W') ∧ crashed W' = crashed W ∨
  (kind k = Interval ∧ pc k = AtNew ∧ wf_store (store W')).
Proof.
  intros H Hwf. unfold worker_body, select_case in H.
  destruct (pc k) eqn:Hpc.
  - destruct (kind k); [left|]; repeat case_match; simplify_eq; eauto.
  - left. repeat case_match; by simplify_eq.
  - left. destruct (wf_stopTimerCh (id k) (store W) Hwf) as (b & s & Hs & Hwf').
    rewrite Hs in H. by simplify_eq.
  - left. repeat case_match; by simplify_eq.
  - left. repeat case_match; by simplify_eq.
  - done.
  - done.
Qed.

Lemma step_wf a W W' :
  step a W = Some W' → wf_store (store W) → wf_store (store W').
Proof.
  intros Hstep Hwf. unfold step in Hstep. destruct (crashed W); [done|].
  destruct a as [cb d a|i|cb d a|i| |g|g o| ].
  - simplify_eq. unfold setTimeout; cbn.
    by apply (wf_getTimerStopCh (store W)).
  - simplify_eq. unfold clearTimeout.
    destruct (wf_stopTimerCh i (store W) Hwf) as (b & s & -> & Hwf'). done.
  - simplify_eq. unfold setInterval; cbn.
    by apply (wf_getTimerStopCh (store W)).
  - simplify_eq. unfold clearInterval.
    destruct (wf_stopTimerCh i (store W) Hwf) as (b & s & -> & Hwf'). done.
  - by simplify_eq.
  - repeat case_match; by simplify_eq.
  - destruct (goroutines W !! g) as [k|]; [|done].
    unfold worker_step in Hstep.
    destruct (worker_body g o k W) as [[k' W1]|] eqn:Hb; simplify_eq.
    cbn. destruct (worker_body_wf _ _ _ _ _ _ Hb Hwf) as [[? _]|(_ & _ & ?)]; done.
  - destruct (queue W) as [|f q]; [done|].
    destruct (run_work f (set_queue q W)) as [err W1] eqn:Hr. simplify_eq.
    cbn. by rewrite (run_work_store _ _ _ _ Hr).
Qed.

Lemma run_wf acts W W' :
  run acts W = Some W' → wf_store (store W) → wf_store (store W').
Proof.
  revert W. induction acts as [|a acts IH]; intros W Hrun Hwf; cbn in Hrun.
  - by simplify_eq.
  - destruct (step a W) as [W1|] eqn:Hstep; [|done].
    eauto using step_wf.
Qed.

(** In every world a VU can reach the table holds open channels only, so
    that [stopTimerCh] never closes a channel twice. *)
Lemma reachable_wf W : reachable W → wf_store (store W).
Proof.
  intros (glob & p & acts & Hrun).
  apply (run_wf _ _ _ Hrun). apply wf_new_store.
Qed.

(** ** The one-shot goroutine on the other two outcomes *)



(** ** One submission per one-shot timer *)

Local Arguments submissions : simpl never.

Lemma submissions_snoc g tr e :
  submissions g (tr ++ [e]) =
    (submissions g tr + if is_submit_of g e then 1 else 0)%nat.
Proof.
  unfold submissions. rewrite filter_app, length_app. f_equal.
  cbn. destruct (is_submit_of g e); [by rewrite decide_True|].
  by rewrite decide_False.
Qed.

Lemma worker_body_submissions g' o k W k' W' g :
  worker_body g' o k W = Some (k', W') →
  submissions g (trace W') =
    (submissions g (trace W) +
     if Nat.eqb g g' && match pc k with AtSelect => true | _ => false end
     then 1 else 0)%nat.
Proof.
  unfold worker_body, select_case. intros H.
  destruct (pc k); rewrite ?andb_false_r, ?andb_true_r;
    repeat case_match; simplify_eq; cbn [trace crash set_store];
    rewrite ?Nat.add_0_r; try done;
    unfold submit, emit; cbn [trace set_queue];
    rewrite ?submissions_snoc; cbn [is_submit_of];
    repeat case_match; lia.
Qed.

Lemma run_work_submissions f W err W' g :
  run_work f W = (err, W') → submissions g (trace W') = submissions g (trace W).
Proof.
  destruct f; cbn; unfold call; intros H;
    repeat case_match; simplify_eq;
    cbn [trace emit set_goroutine set_goroutines set_tokens];
    rewrite ?submissions_snoc; cbn [is_submit_of]; lia.
Qed.

Lemma step_submissions a W W' g :
  step a W = Some W' →
  submissions g (trace W') =
    (submissions g (trace W) + if selects g a W then 1 else 0)%nat.
Proof.
  intros Hstep. unfold step in Hstep. destruct (crashed W); [done|].
  destruct a as [cb d a|i|cb d a|i| |g'|g' o| ]; cbn [selects];
    rewrite ?Nat.add_0_r.
  - simplify_eq. unfold setTimeout; cbn.
    rewrite submissions_snoc. cbn. lia.
  - simplify_eq. unfold clearTimeout. by repeat (case_match; cbn).
  - simplify_eq. unfold setInterval; cbn.
    rewrite submissions_snoc. cbn. lia.
  - simplify_eq. unfold clearInterval. by repeat (case_match; cbn).
  - by simplify_eq.
  - repeat case_match; by simplify_eq.
  - destruct (goroutines W !! g') as [k|]; [|done].
    unfold worker_step in Hstep.
    destruct (worker_body g' o k W) as [[k' W1]|] eqn:Hb; simplify_eq.
    cbn. exact (worker_body_submissions _ _ _ _ _ _ g Hb).
  - destruct (queue W) as [|f q]; [done|].
    destruct (run_work f (set_queue q W)) as [err W1] eqn:Hr. simplify_eq.
    cbn. rewrite submissions_snoc. cbn.
    rewrite (run_work_submissions _ _ _ _ g Hr). cbn. lia.
Qed.

Lemma run_work_length f W err W' :
  run_work f W = (err, W') → length (goroutines W') = length (goroutines W).
Proof.
  destruct f; cbn; unfold call; intros H;
    repeat case_match; simplify_eq; cbn; by rewrite ?length_insert.
Qed.

(** Goroutines are only ever added, by the two scheduling calls, and start
    before their timer is created. *)
Lemma step_goroutines a W W' :
  step a W = Some W' →
  (allocates a = true ∧
   ∃ k, goroutines W' = goroutines W ++ [k] ∧ pc k = AtNew) ∨
  (allocates a = false ∧ length (goroutines W') = length (goroutines W)).
Proof.
  intros Hstep. unfold step in Hstep. destruct (crashed W); [done|].
  destruct a as [cb d a|i|cb d a|i| |g|g o| ]; cbn [allocates].
  - left. simplify_eq. split; [done|]. unfold setTimeout; cbn. eauto.
  - right. simplify_eq. split; [done|]. unfold clearTimeout.
    by repeat (case_match; cbn).
  - left. simplify_eq. split; [done|]. unfold setInterval; cbn. eauto.
  - right. simplify_eq. split; [done|]. unfold clearInterval.
    by repeat (case_match; cbn).
  - right. by simplify_eq.
  - right. split; [done|].
    repeat case_match; simplify_eq; cbn; by rewrite length_insert.
  - right. split; [done|].
    destruct (goroutines W !! g) as [k|]; [|done].
    unfold worker_step in Hstep.
    destruct (worker_body g o k W) as [[k' W1]|] eqn:Hb; simplify_eq.
    cbn. rewrite length_insert.
    by rewrite (worker_body_goroutines _ _ _ _ _ _ Hb).
  - right. split; [done|].
    destruct (queue W) as [|f q]; [done|].
    destruct (run_work f (set_queue q W)) as [err W1] eqn:Hr. simplify_eq.
    cbn. by rewrite (run_work_length _ _ _ _ Hr).
Qed.

Lemma selects_other g a W :
  (∀ o, a ≠ AWorker g o) → selects g a W = false.
Proof.
  intros Hne. destruct a as [| | | | | |g' o| ]; try done. cbn.
  destruct (Nat.eqb_spec g g') as [->|]; [|done]. by destruct (Hne o).
Qed.

Lemma worker_body_pc g o k W k' W' :
  worker_body g o k W = Some (k', W') →
  kind k' = kind k ∧
  (kind k = Timeout →
   match pc k with
   | AtSelect => before_select (pc k') = false
   | _ => before_select (pc k') = before_select (pc k)
   end).
Proof.
  unfold worker_body, select_case. intros H.
  destruct (pc k) eqn:Hpc, (kind k) eqn:Hk;
    repeat case_match; simplify_eq; cbn; rewrite ?Hpc; done.
Qed.

(** A step of the machine moves a one-shot goroutine past its [select]
    only if it is that goroutine's own [select] step. *)
Lemma step_before_select a W W' g k :
  step a W = Some W' →
  goroutines W !! g = Some k →
  ∃ k', goroutines W' !! g = Some k' ∧
        kind k' = kind k ∧
        (kind k = Timeout →
         if selects g a W
         then before_select (pc k) = true ∧ before_select (pc k') = false
         else before_select (pc k') = before_select (pc k)).
Proof.
  intros Hstep Hg.
  destruct (step_lookup _ _ _ _ _ Hstep Hg)
    as (k' & Hg' & [(Hne & t & ->)|[(-> & Ht & ->)|(o & W1 & -> & Hb)]]).
  - eexists. split; [done|]. split; [done|].
    by rewrite (selects_other _ _ _ Hne).
  - eexists. split; [done|]. done.
  - exists k'. split; [done|].
    destruct (worker_body_pc _ _ _ _ _ _ Hb) as [Hk Hpc].
    split; [done|]. intros HT. specialize (Hpc HT).
    cbn. rewrite Nat.eqb_refl, Hg. cbn.
    destruct (pc k); try done.
Qed.

Lemma step_one_submission a W W' :
  step a W = Some W' → one_submission W → one_submission W'.
Proof.
  intros Hstep [Hold Hnew].
  pose proof (step_goroutines _ _ _ Hstep) as Hgs.
  split.
  - intros g k' Hg' Hk'.
    rewrite (step_submissions _ _ _ g Hstep).
    destruct (goroutines W !! g) as [k|] eqn:Hg.
    + destruct (step_before_select _ _ _ _ _ Hstep Hg)
        as (k'' & Hg'' & Hkind & Hpc).
      simplify_eq. rewrite Hkind in Hk'. specialize (Hpc Hk').
      rewrite (Hold _ _ Hg Hk').
      destruct (selects g a W).
      * destruct Hpc as [-> ->]. done.
      * rewrite Hpc. lia.
    + apply lookup_ge_None in Hg.
      rewrite (Hnew _ Hg).
      destruct Hgs as [(Ha & k & Heq & Hpc)|(_ & Hlen)].
      * rewrite Heq in Hg'.
        rewrite lookup_app_r in Hg' by done.
        apply list_lookup_singleton_Some in Hg' as [_ <-].
        rewrite Hpc.
        rewrite selects_other; [done|].
        intros o ->. done.
      * apply lookup_lt_Some in Hg'. lia.
  - intros g Hlen.
    rewrite (step_submissions _ _ _ g Hstep).
    assert (Hlen' : (length (goroutines W) ≤ g)%nat).
    { destruct Hgs as [(_ & k & Heq & _)|(_ & Heq)].
      - rewrite Heq, length_app in Hlen. cbn in Hlen. lia.
      - lia. }
    rewrite (Hnew _ Hlen').
    assert (Hsel : selects g a W = false).
    { destruct a as [| | | | | |g' o| ]; try done. cbn.
      destruct (Nat.eqb_spec g g') as [<-|]; [|done].
      by rewrite (proj2 (lookup_ge_None _ _) Hlen'). }
    by rewrite Hsel.
Qed.

(** X5 (what holds of C5 on every outcome): along every run of a VU a
    one-shot goroutine submits nothing until its [select] is resolved and
    exactly one unit of work afterwards; it never submits two. *)
Lemma one_shot_submits_once W g k :
  reachable W →
  goroutines W !! g = Some k → kind k = Timeout →
  submissions g (trace W) = if before_select (pc k) then 0%nat else 1%nat.
Proof.
  intros (glob & p & acts & Hrun).
  assert (Hinv : one_submission W).
  { assert (H0 : one_submission (new_world glob p)) by (by split).
    revert Hrun H0. generalize (new_world glob p).
    induction acts as [|a acts IH]; intros W0 Hrun H0; cbn in Hrun.
    - by simplify_eq.
    - destruct (step a W0) as [W1|] eqn:Hstep; [|done].
      eauto using step_one_submission. }
  apply Hinv.
Qed.

(** * Further properties of the module *)

(** ** No channel is closed twice *)

Lemma worker_body_crash_cause g o k W k' W' :
  worker_body g o k W = Some (k', W') →
  wf_store (store W) → crashed W = false → crashed W' = true →
  kind k' = Interval ∧ pc k' = Panicked ∧ timer k' = timer k ∧
  delay k' = delay k ∧ pc k = AtNew ∧
  to_Duration (platform W') (delay k') <= 0.
Proof.
  intros H Hwf Hc Hc'. unfold worker_body, select_case in H.
  destruct (pc k) eqn:Hpc.
  - destruct (kind k) eqn:Hk.
    + simplify_eq. cbn in Hc'. congruence.
    + destruct (to_Duration (platform W) (delay k) <=? 0) eqn:Hd;
        simplify_eq; cbn in *; [|congruence].
      apply Z.leb_le in Hd. done.
  - repeat case_match; simplify_eq; cbn in Hc'; congruence.
  - destruct (wf_stopTimerCh (id k) (store W) Hwf) as (b & s & Hs & _).
    rewrite Hs in H. simplify_eq. cbn in Hc'. congruence.
  - repeat case_match; simplify_eq; cbn in Hc'; congruence.
  - repeat case_match; simplify_eq; cbn in Hc'; congruence.
  - done.
  - done.
Qed.

Lemma step_crash_cause a W W' :
  step a W = Some W' →
  wf_store (store W) → crashed W' = true →
  ∃ g k, goroutines W' !! g = Some k ∧
         kind k = Interval ∧ pc k = Panicked ∧
         to_Duration (platform W') (delay k) <= 0.
Proof.
  intros Hstep Hwf Hc'. unfold step in Hstep.
  destruct (crashed W) eqn:Hc; [done|].
  destruct a as [cb d a|i|cb d a|i| |g|g o| ].
  - simplify_eq. unfold setTimeout in Hc'; cbn in Hc'. congruence.
  - simplify_eq. unfold clearTimeout in Hc'.
    destruct (wf_stopTimerCh i (store W) Hwf) as (b & s & Hs & _).
    rewrite Hs in Hc'. cbn in Hc'. congruence.
  - simplify_eq. unfold setInterval in Hc'; cbn in Hc'. congruence.
  - simplify_eq. unfold clearInterval in Hc'.
    destruct (wf_stopTimerCh i (store W) Hwf) as (b & s & Hs & _).
    rewrite Hs in Hc'. cbn in Hc'. congruence.
  - simplify_eq. cbn in Hc'. congruence.
  - repeat case_match; simplify_eq; cbn in Hc'; congruence.
  - destruct (goroutines W !! g) as [k|] eqn:Hg; [|done].
    unfold worker_step in Hstep.
    destruct (worker_body g o k W) as [[k' W1]|] eqn:Hb; simplify_eq.
    destruct (worker_body_crash_cause _ _ _ _ _ _ Hb Hwf Hc Hc')
      as (Hk & Hpc & _ & _ & _ & Hd).
    exists g, k'. split; [|done].
    cbn. apply list_lookup_insert_eq.
    rewrite (worker_body_goroutines _ _ _ _ _ _ Hb).
    by eapply lookup_lt_Some.
  - destruct (queue W) as [|f q]; [done|].
    destruct (run_work f (set_queue q W)) as [err W1] eqn:Hr. simplify_eq.
    cbn in Hc'. exfalso.
    destruct f; cbn in Hr; unfold call in Hr;
      repeat case_match; simplify_eq; cbn in Hc'; congruence.
Qed.

Lemma run_crash_cause acts W W' :
  run acts W = Some W' →
  wf_store (store W) → crashed W = false → crashed W' = true →
  ∃ g k, goroutines W' !! g = Some k ∧
         kind k = Interval ∧ pc k = Panicked ∧
         to_Duration (platform W') (delay k) <= 0.
Proof.
  revert W. induction acts as [|a acts IH]; intros W Hrun Hwf Hc Hc';
    cbn in Hrun.
  - simplify_eq. congruence.
  - destruct (step a W) as [W1|] eqn:Hstep; [|done].
    destruct (crashed W1) eqn:Hc1.
    + destruct acts as [|b acts]; cbn in Hrun.
      * simplify_eq. by eapply step_crash_cause.
      * by rewrite (step_crashed b W1 Hc1) in Hrun.
    + eapply IH; eauto using step_wf.
Qed.

(** X1: whatever the script and the scheduler do, the table only ever
    holds open channels, each under one id, so no call of [stopTimerCh]
    closes a channel twice; the only panic a VU can die of is the one of
    [time.NewTicker] in the goroutine of a [setInterval] whose period
    converts to a duration that is not positive. *)
Theorem only_NewTicker_panics W :
  reachable W →
  wf_store (store W) ∧
  (∀ i, ∃ b s, stopTimerCh i (store W) = Ret (b, s)) ∧
  (crashed W = true →
   ∃ g k, goroutines W !! g = Some k ∧
          kind k = Interval ∧ pc k = Panicked ∧
          to_Duration (platform W) (delay k) <= 0).
Proof.
  intros (glob & p & acts & Hrun).
  assert (Hwf : wf_store (store W))
    by (apply (run_wf _ _ _ Hrun), wf_new_store).
  split; [done|]. split.
  - intros i. destruct (wf_stopTimerCh i (store W) Hwf) as (b & s & Hs & _).
    eauto.
  - intros Hc. eapply run_crash_cause; eauto. apply wf_new_store.
Qed.

Lemma only_NewTicker_panics_witness :
  let W := after [ASetInterval example_callback (-1)%float []; AWorker 0 Elapsed]
             example_world in
  reachable W ∧
  wf_store (store W) ∧
  (∀ i, ∃ b s, stopTimerCh i (store W) = Ret (b, s)) ∧
  (crashed W = true →
   ∃ g k, goroutines W !! g = Some k ∧
          kind k = Interval ∧ pc k = Panicked ∧
          to_Duration (platform W) (delay k) <= 0).
Proof.
  intros W.
  assert (Hr : reachable W).
  { exists 7%nat, example_platform,
      [ASetInterval example_callback (-1)%float []; AWorker 0 Elapsed].
    vm_compute. reflexivity. }
  split; [exact Hr|]. exact (only_NewTicker_panics W Hr).
Defined.

(** ** Allocating and cancelling *)

(** X2: an id that has just been allocated is live, with an open channel,
    and cancelling it at once succeeds; what is left is the table without
    that id (the table as it was, if the id was not in use), one more
    channel, closed, and the counter one step on. *)
Theorem getTimerStopCh_stopTimerCh (s : Store) :
  let i := fst (fst (getTimerStopCh s)) in
  let ch := snd (fst (getTimerStopCh s)) in
  let s1 := snd (getTimerStopCh s) in
  i = wrap32 (timerStopCounter (inst s) + 1) ∧
  ch = length (chans s) ∧
  timerStops (inst s1) !! i = Some ch ∧
  signaled s1 ch = false ∧
  stopTimerCh i s1 =
    Ret (true, mkStore (mkEvents i (delete i (timerStops (inst s))))
                       (chans s ++ [true])) ∧
  (timerStops (inst s) !! i = None →
   stopTimerCh i s1 =
     Ret (true, mkStore (mkEvents i (timerStops (inst s)))
                        (chans s ++ [true]))).
Proof.
  intros i ch s1.
  assert (Hi : timerStops (inst s1) !! i = Some ch) by apply lookup_insert_eq.
  assert (Hc : chans s1 !! ch = Some false).
  { subst s1 ch. cbn. rewrite lookup_app_r by lia. by rewrite Nat.sub_diag. }
  assert (Hstop : stopTimerCh i s1 =
    Ret (true, mkStore (mkEvents i (delete i (timerStops (inst s))))
                       (chans s ++ [true]))).
  { rewrite (stopTimerCh_present i ch s1 Hi Hc). subst s1 i ch. cbn.
    rewrite delete_insert_eq.
    rewrite insert_app_r_alt by lia. by rewrite Nat.sub_diag. }
  repeat split; try done.
  - unfold signaled. by rewrite Hc.
  - intros Hnone. rewrite Hstop. by rewrite (delete_id _ _ Hnone).
Qed.

Lemma getTimerStopCh_stopTimerCh_witness :
  let s := snd (getTimerStopCh new_store) in
  let i := fst (fst (getTimerStopCh s)) in
  let ch := snd (fst (getTimerStopCh s)) in
  let s1 := snd (getTimerStopCh s) in
  timerStops (inst s) !! 2 = None ∧
  i = 2 ∧ ch = 1%nat ∧
  timerStops (inst s1) !! i = Some ch ∧
  signaled s1 ch = false ∧
  stopTimerCh i s1 =
    Ret (true, mkStore (mkEvents i (delete i (timerStops (inst s))))
                       (chans s ++ [true])) ∧
  stopTimerCh i s1 =
    Ret (true, mkStore (mkEvents i (timerStops (inst s)))
                       (chans s ++ [true])).
Proof.
  intros s i ch s1.
  assert (Hnone : timerStops (inst s) !! 2 = None) by (vm_compute; reflexivity).
  destruct (getTimerStopCh_stopTimerCh s) as (_ & _ & H3 & H4 & H5 & H6).
  split; [exact Hnone|]. split; [reflexivity|]. split; [reflexivity|].
  split; [exact H3|]. split; [exact H4|]. split; [exact H5|].
  exact (H6 Hnone).
Defined.

(** X3: allocating an id leaves every other entry of the table and every
    existing channel as it was.  If the id was still in use (the counter
    has wrapped), its entry is overwritten: the channel it held stays open
    but is no longer in the table under any id, so that timer cannot be
    cancelled any more. *)
Theorem getTimerStopCh_frame (s : Store) :
  let i := fst (fst (getTimerStopCh s)) in
  let s1 := snd (getTimerStopCh s) in
  (∀ j, j ≠ i → timerStops (inst s1) !! j = timerStops (inst s) !! j) ∧
  (∀ c b, chans s !! c = Some b → chans s1 !! c = Some b) ∧
  (∀ old, wf_store s → timerStops (inst s) !! i = Some old →
          signaled s1 old = false ∧
          ∀ j, timerStops (inst s1) !! j ≠ Some old).
Proof.
  intros i s1. split; [|split].
  - intros j Hj. subst s1 i. cbn. by rewrite lookup_insert_ne.
  - intros c b Hc. subst s1. cbn. by apply lookup_app_l_Some.
  - intros old [Hopen Hinj] Hold. pose proof (Hopen _ _ Hold) as Hc.
    split.
    + unfold signaled. subst s1. cbn.
      by rewrite (lookup_app_l_Some _ _ _ _ Hc).
    + intros j. destruct (decide (j = i)) as [->|Hne].
      * subst s1 i. cbn. rewrite lookup_insert_eq. intros [= Heq].
        apply lookup_lt_Some in Hc. lia.
      * subst s1. cbn. rewrite lookup_insert_ne by done.
        intros Hj. apply Hne. eapply Hinj; eauto.
Qed.

Lemma getTimerStopCh_frame_witness :
  let s := mkStore (mkEvents 0 {[1 := 0%nat]}) [false] in
  let i := fst (fst (getTimerStopCh s)) in
  let s1 := snd (getTimerStopCh s) in
  (wf_store s ∧ timerStops (inst s) !! i = Some 0%nat) ∧
  (∀ j, j ≠ i → timerStops (inst s1) !! j = timerStops (inst s) !! j) ∧
  (∀ c b, chans s !! c = Some b → chans s1 !! c = Some b) ∧
  signaled s1 0%nat = false ∧
  ∀ j, timerStops (inst s1) !! j ≠ Some 0%nat.
Proof.
  intros s i s1.
  assert (Hwf : wf_store s).
  { split; cbn.
    - intros j ch [<- <-]%lookup_singleton_Some. reflexivity.
    - intros j1 j2 ch [<- _]%lookup_singleton_Some [<- _]%lookup_singleton_Some.
      reflexivity. }
  assert (Hold : timerStops (inst s) !! i = Some 0%nat)
    by (vm_compute; reflexivity).
  destruct (getTimerStopCh_frame s) as (H1 & H2 & H3).
  split; [done|]. split; [exact H1|]. split; [exact H2|].
  exact (H3 0%nat Hwf Hold).
Defined.

(** ** Concrete runs for the one-shot goroutine *)


Lemma one_shot_submits_once_witness :
  let W := after (timeout_fired ++ [AWorker 0 Elapsed]) example_world in
  let k := mkWorker Timeout 1 0%nat example_callback [1%nat; 2%nat] 0%float
                    0%nat Received 0 AtUnregister in
  (reachable W ∧ goroutines W !! 0%nat = Some k ∧ kind k = Timeout) ∧
  submissions 0 (trace W) = 1%nat.
Proof.
  intros W k.
  assert (Hr : reachable W).
  { exists 7%nat, example_platform, (timeout_fired ++ [AWorker 0 Elapsed]).
    vm_compute. reflexivity. }
  assert (Hg : goroutines W !! 0%nat = Some k) by (vm_compute; reflexivity).
  split; [exact (conj Hr (conj Hg eq_refl))|].
  exact (one_shot_submits_once W 0 k Hr Hg eq_refl).
Defined.

(** ** The goroutine of a repeating timer *)

(** X6: cancellation and interruption of a repeating timer.  The
    goroutine submits the no-op (after the warning, when interrupted),
    leaves the loop, removes its entry, stops the ticker and exits, in
    three steps; nothing is drained and nothing can block. *)
Theorem interval_stopped_exits g o k W :
  crashed W = false → wf_store (store W) →
  goroutines W !! g = Some k →
  kind k = Interval → pc k = AtSelect →
  o ≠ Elapsed → ready o k W = true →
  ∃ W' k',
    run (replicate 3 (AWorker g o)) W = Some W' ∧
    goroutines W' !! g = Some k' ∧
    pc k' = Exited ∧ timer k' = Stopped ∧
    timerStops (inst (store W')) !! id k = None ∧
    crashed W' = false ∧
    queue W' = queue W ++ [Noop] ∧
    trace W' = trace W
               ++ match o with
                  | Interrupted => [EvWarn Interval (id k)]
                  | _ => []
                  end
               ++ [EvSubmit g (runOnLoop k) Noop].
Proof.
  intros Hc Hwf Hg Hk Hpc Ho Hready.
  set (k1 := set_pc AtUnregister k).
  set (W0 := match o with
             | Interrupted => emit (EvWarn (kind k) (id k)) W
             | _ => W
             end).
  set (W1 := set_goroutine g k1 (submit g (runOnLoop k) Noop W0)).
  assert (H1 : step (AWorker g o) W = Some W1).
  { rewrite (step_worker g o k W Hc Hg).
    unfold worker_step, worker_body, select_case. rewrite Hpc, Hready.
    by destruct o. }
  assert (Hg1 : goroutines W1 !! g = Some k1)
    by (apply lookup_set_goroutine with (k := k); by destruct o).
  assert (Hwf1 : wf_store (store W1)) by (by destruct o).
  assert (Hc1 : crashed W1 = false) by (by destruct o).
  destruct (wf_stopTimerCh (id k) (store W1) Hwf1) as (b & s' & Hstop & _).
  pose proof (stopTimerCh_gone _ _ _ _ Hstop) as Hgone.
  set (k2 := set_pc AtTimerStop k1).
  set (W2 := set_goroutine g k2 (set_store s' W1)).
  assert (H2 : step (AWorker g o) W1 = Some W2).
  { rewrite (step_worker g o k1 W1 Hc1 Hg1).
    unfold worker_step, worker_body. cbn [pc k1 set_pc id].
    by rewrite Hstop. }
  assert (Hg2 : goroutines W2 !! g = Some k2)
    by (by eapply lookup_set_goroutine).
  set (k3 := set_pc Exited (set_timer Stopped k2)).
  set (W3 := set_goroutine g k3 W2).
  assert (H3 : step (AWorker g o) W2 = Some W3).
  { rewrite (step_worker g o k2 W2 Hc1 Hg2).
    unfold worker_step, worker_body. cbn. by rewrite Hk. }
  assert (Hg3 : goroutines W3 !! g = Some k3)
    by (by eapply lookup_set_goroutine).
  exists W3, k3. cbn [replicate run]. rewrite H1, H2, H3.
  repeat split; try done.
  - by destruct o.
  - destruct o; try done; cbn. by rewrite Hk, <- app_assoc.
Qed.

Lemma interval_stopped_exits_witness :
  let acts := interval_armed ++ [AInterrupt] in
  let W := after acts example_world in
  let k := mkWorker Interval 1 0%nat example_callback [1%nat; 2%nat] 10%float
                    0%nat Fired 10000000 AtSelect in
  (crashed W = false ∧ wf_store (store W) ∧
   goroutines W !! 0%nat = Some k ∧
   kind k = Interval ∧ pc k = AtSelect ∧
   Interrupted ≠ Elapsed ∧ ready Interrupted k W = true) ∧
  ∃ W' k',
    run (replicate 3 (AWorker 0 Interrupted)) W = Some W' ∧
    goroutines W' !! 0%nat = Some k' ∧
    pc k' = Exited ∧ timer k' = Stopped ∧
    timerStops (inst (store W')) !! id k = None ∧
    crashed W' = false ∧
    queue W' = queue W ++ [Noop] ∧
    trace W' = trace W ++ [EvWarn Interval (id k)]
               ++ [EvSubmit 0 (runOnLoop k) Noop].
Proof.
  intros acts W k.
  assert (Hrun : run acts example_world = Some W) by (vm_compute; reflexivity).
  assert (Hwf : wf_store (store W))
    by (apply (run_wf _ _ _ Hrun), wf_new_store).
  assert (Hc : crashed W = false) by (vm_compute; reflexivity).
  assert (Hg : goroutines W !! 0%nat = Some k) by (vm_compute; reflexivity).
  assert (Ho : Interrupted ≠ Elapsed) by discriminate.
  assert (Hr : ready Interrupted k W = true) by (vm_compute; reflexivity).
  split.
  { exact (conj Hc (conj Hwf (conj Hg (conj eq_refl (conj eq_refl
             (conj Ho Hr)))))). }
  exact (interval_stopped_exits 0 Interrupted k W Hc Hwf Hg eq_refl eq_refl
           Ho Hr).
Defined.

Lemma run_app acts1 acts2 W :
  run (acts1 ++ acts2) W =
    match run acts1 W with
    | Some W1 => run acts2 W1
    | None => None
    end.
Proof.
  revert W. induction acts1 as [|a acts1 IH]; intros W; cbn; [done|].
  by destruct (step a W).
Qed.

Lemma set_timer_Armed_Fired k :
  timer k = Armed → set_timer Armed (set_timer Fired k) = k.
Proof. destruct k; cbn. by intros ->. Qed.

(** One tick, from the ticker firing to the goroutine being back in its
    [select]. *)
Lemma tick_round g k W :
  crashed W = false → goroutines W !! g = Some k →
  kind k = Interval → pc k = AtSelect → timer k = Armed →
  ∃ W', run [AFire g; AWorker g Elapsed] W = Some W' ∧
        crashed W' = false ∧
        goroutines W' !! g = Some k ∧
        trace W' = trace W
          ++ [EvSubmit g (runOnLoop k) (CallTick g (callback k) (args k))] ∧
        queue W' = queue W ++ [CallTick g (callback k) (args k)] ∧
        store W' = store W ∧ tokens W' = tokens W ∧
        globalObject W' = globalObject W.
Proof.
  intros Hc Hg Hk Hpc Ht.
  set (k1 := set_timer Fired k).
  set (W1 := set_goroutine g k1 W).
  assert (H1 : step (AFire g) W = Some W1)
    by (rewrite (step_fire g k W Hc Hg); by rewrite Ht).
  assert (Hg1 : goroutines W1 !! g = Some k1)
    by (by eapply lookup_set_goroutine).
  set (W2 := set_goroutine g (set_timer Armed k1)
               (submit g (runOnLoop k) (CallTick g (callback k) (args k)) W1)).
  assert (H2 : step (AWorker g Elapsed) W1 = Some W2).
  { rewrite (step_worker g Elapsed k1 W1 Hc Hg1).
    unfold worker_step, worker_body, ready, select_case. cbn.
    by rewrite Hpc, Hk. }
  exists W2. cbn [run]. rewrite H1, H2. repeat split; try done.
  replace (Some k) with (Some (set_timer Armed k1))
    by (subst k1; by rewrite set_timer_Armed_Fired).
  apply lookup_set_goroutine with (k := k1). exact Hg1.
Qed.

(** X7: the goroutine of a repeating timer survives its ticks.  After any
    number [n] of ticks handled while the executor does not run, it is
    back in its [select] with the ticker running and its entry in place,
    and it has submitted [n] closures, every one of them with the same
    token, the one it held at the first tick: the token is replaced only
    when the executor runs a submitted closure. *)
Theorem interval_ticks_reuse_token n g k W :
  crashed W = false → goroutines W !! g = Some k →
  kind k = Interval → pc k = AtSelect → timer k = Armed →
  ∃ W', run (ticks n g) W = Some W' ∧
        crashed W' = false ∧
        goroutines W' !! g = Some k ∧
        trace W' = trace W
          ++ replicate n
               (EvSubmit g (runOnLoop k) (CallTick g (callback k) (args k))) ∧
        queue W' = queue W ++ replicate n (CallTick g (callback k) (args k)) ∧
        store W' = store W ∧ tokens W' = tokens W.
Proof.
  intros Hc Hg Hk Hpc Ht. revert W Hc Hg.
  induction n as [|n IH]; intros W Hc Hg.
  - exists W. cbn. by rewrite !app_nil_r.
  - destruct (tick_round g k W Hc Hg Hk Hpc Ht)
      as (W1 & Hrun1 & Hc1 & Hg1 & Htr1 & Hq1 & Hs1 & Htok1 & _).
    destruct (IH W1 Hc1 Hg1) as (W' & Hrun & Hc' & Hg' & Htr & Hq & Hs & Htok).
    exists W'. unfold ticks in *.
    change (replicate (S n) [AFire g; AWorker g Elapsed])
      with ([AFire g; AWorker g Elapsed]
            :: replicate n [AFire g; AWorker g Elapsed]).
    cbn [concat]. rewrite run_app, Hrun1, Hrun.
    repeat split; try done.
    + rewrite Htr, Htr1, <- app_assoc. done.
    + rewrite Hq, Hq1, <- app_assoc. done.
    + congruence.
    + congruence.
Qed.

Lemma interval_ticks_reuse_token_witness :
  let W := after [ASetInterval example_callback 10%float [1%nat; 2%nat];
                  AWorker 0 Elapsed] example_world in
  let k := mkWorker Interval 1 0%nat example_callback [1%nat; 2%nat] 10%float
                    0%nat Armed 10000000 AtSelect in
  (crashed W = false ∧ goroutines W !! 0%nat = Some k ∧
   kind k = Interval ∧ pc k = AtSelect ∧ timer k = Armed) ∧
  ∃ W', run (ticks 3 0) W = Some W' ∧
        crashed W' = false ∧
        goroutines W' !! 0%nat = Some k ∧
        trace W' = trace W
          ++ replicate 3
               (EvSubmit 0 (runOnLoop k) (CallTick 0 (callback k) (args k))) ∧
        queue W' = queue W ++ replicate 3 (CallTick 0 (callback k) (args k)) ∧
        store W' = store W ∧ tokens W' = tokens W.
Proof.
  intros W k.
  assert (Hc : crashed W = false) by (vm_compute; reflexivity).
  assert (Hg : goroutines W !! 0%nat = Some k) by (vm_compute; reflexivity).
  split; [exact (conj Hc (conj Hg (conj eq_refl (conj eq_refl eq_refl))))|].
  exact (interval_ticks_reuse_token 3 0 k W Hc Hg eq_refl eq_refl eq_refl).
Defined.

(** One tick with the executor running the closure before the next. *)
Lemma served_round g k W :
  crashed W = false → goroutines W !! g = Some k →
  kind k = Interval → pc k = AtSelect → timer k = Armed →
  queue W = [] →
  ∃ W', run [AFire g; AWorker g Elapsed; AExec] W = Some W' ∧
        crashed W' = false ∧
        goroutines W' !! g = Some (set_runOnLoop (tokens W) k) ∧
        trace W' = trace W
          ++ tick_rounds 1 g (callback k) (args k) (globalObject W)
               (runOnLoop k) (tokens W) ∧
        queue W' = [] ∧
        tokens W' = S (tokens W) ∧
        store W' = store W ∧
        globalObject W' = globalObject W.
Proof.
  intros Hc Hg Hk Hpc Ht Hq.
  destruct (tick_round g k W Hc Hg Hk Hpc Ht)
    as (W2 & Hrun2 & Hc2 & Hg2 & Htr2 & Hq2 & Hs2 & Htok2 & Hglob2).
  rewrite Hq in Hq2. cbn in Hq2.
  change [AFire g; AWorker g Elapsed; AExec]
    with ([AFire g; AWorker g Elapsed] ++ [AExec]).
  rewrite run_app, Hrun2. cbn [run]. unfold step.
  rewrite Hc2, Hq2. cbn [run_work RegisterCallback]. cbn. rewrite Hg2.
  eexists. split; [reflexivity|]. cbn.
  rewrite Hc2, Htr2, Htok2, Hs2, Hglob2, <- !app_assoc. cbn.
  repeat split; try done.
  apply list_lookup_insert_eq. by eapply lookup_lt_Some.
Qed.

(** X8: when the executor keeps up with the ticker, every tick leads to
    one invocation of the callback, with the global object and the
    arguments of the [setInterval] call, and each tick is submitted with
    its own token: the first with the token registered by [setInterval],
    every later one with the token the previous closure registered.  The
    goroutine is back in its [select] after each round, for any number of
    rounds. *)
Theorem interval_served_ticks n g k W :
  crashed W = false → goroutines W !! g = Some k →
  kind k = Interval → pc k = AtSelect → timer k = Armed →
  queue W = [] →
  ∃ W' k',
    run (served_ticks n g) W = Some W' ∧
    crashed W' = false ∧
    goroutines W' !! g = Some k' ∧
    kind k' = Interval ∧ pc k' = AtSelect ∧ timer k' = Armed ∧
    trace W' = trace W
      ++ tick_rounds n g (callback k) (args k) (globalObject W)
           (runOnLoop k) (tokens W) ∧
    queue W' = [] ∧
    tokens W' = (tokens W + n)%nat ∧
    store W' = store W.
Proof.
  intros Hc Hg Hk Hpc Ht Hq. revert W k Hc Hg Hk Hpc Ht Hq.
  induction n as [|n IH]; intros W k Hc Hg Hk Hpc Ht Hq.
  - exists W, k. cbn. rewrite app_nil_r, Nat.add_0_r. done.
  - destruct (served_round g k W Hc Hg Hk Hpc Ht Hq)
      as (W1 & Hrun1 & Hc1 & Hg1 & Htr1 & Hq1 & Htok1 & Hs1 & Hglob1).
    destruct (IH W1 (set_runOnLoop (tokens W) k) Hc1 Hg1 Hk Hpc Ht Hq1)
      as (W' & k' & Hrun & Hc' & Hg' & Hk' & Hpc' & Ht' & Htr & Hq' & Htok & Hs).
    exists W', k'. unfold served_ticks in *.
    change (replicate (S n) [AFire g; AWorker g Elapsed; AExec])
      with ([AFire g; AWorker g Elapsed; AExec]
            :: replicate n [AFire g; AWorker g Elapsed; AExec]).
    cbn [concat]. rewrite run_app, Hrun1, Hrun.
    repeat split; try done.
    + rewrite Htr, Htr1, Hglob1, Htok1. cbn [tick_rounds].
      rewrite app_nil_r, <- app_assoc. done.
    + rewrite Htok, Htok1. lia.
    + congruence.
Qed.

Lemma interval_served_ticks_witness :
  let W := after [ASetInterval example_callback 10%float [1%nat; 2%nat];
                  AWorker 0 Elapsed] example_world in
  let k := mkWorker Interval 1 0%nat example_callback [1%nat; 2%nat] 10%float
                    0%nat Armed 10000000 AtSelect in
  (crashed W = false ∧ goroutines W !! 0%nat = Some k ∧
   kind k = Interval ∧ pc k = AtSelect ∧ timer k = Armed ∧ queue W = []) ∧
  ∃ W' k',
    run (served_ticks 2 0) W = Some W' ∧
    crashed W' = false ∧
    goroutines W' !! 0%nat = Some k' ∧
    kind k' = Interval ∧ pc k' = AtSelect ∧ timer k' = Armed ∧
    trace W' = trace W
      ++ tick_rounds 2 0 (callback k) (args k) (globalObject W)
           (runOnLoop k) (tokens W) ∧
    queue W' = [] ∧
    tokens W' = (tokens W + 2)%nat ∧
    store W' = store W.
Proof.
  intros W k.
  assert (Hc : crashed W = false) by (vm_compute; reflexivity).
  assert (Hg : goroutines W !! 0%nat = Some k) by (vm_compute; reflexivity).
  assert (Hq : queue W = []) by (vm_compute; reflexivity).
  split.
  { exact (conj Hc (conj Hg (conj eq_refl (conj eq_refl (conj eq_refl Hq))))). }
  exact (interval_served_ticks 2 0 k W Hc Hg eq_refl eq_refl eq_refl Hq).
Defined.

(** ** Cancellation and interruption are never lost *)

Lemma getTimerStopCh_signaled s ch :
  signaled s ch = true → signaled (snd (getTimerStopCh s)) ch = true.
Proof.
  unfold signaled. cbn. destruct (chans s !! ch) as [b|] eqn:Hc; [|done].
  intros ->. by rewrite (lookup_app_l_Some _ _ _ _ Hc).
Qed.

Lemma stopTimerCh_signaled i s b s' ch :
  stopTimerCh i s = Ret (b, s') →
  signaled s ch = true → signaled s' ch = true.
Proof.
  unfold stopTimerCh, close_chan. intros H.
  destruct (timerStops (inst s) !! i) as [c|]; [|by simplify_eq].
  cbn in H. destruct (chans s !! c) as [[]|] eqn:Hc; simplify_eq.
  unfold signaled. cbn. rewrite list_lookup_insert.
  case_decide; [done|]. done.
Qed.

Lemma worker_body_fields g o k W k' W' :
  worker_body g o k W = Some (k', W') →
  kind k' = kind k ∧ id k' = id k ∧ stopCh k' = stopCh k ∧
  callback k' = callback k ∧ args k' = args k ∧ delay k' = delay k ∧
  runOnLoop k' = runOnLoop k.
Proof.
  unfold worker_body, select_case. intros H.
  repeat case_match; simplify_eq; done.
Qed.

Lemma worker_body_signaled g o k W k' W' ch :
  worker_body g o k W = Some (k', W') →
  (signaled (store W) ch = true → signaled (store W') ch = true) ∧
  (ctxDone W = true → ctxDone W' = true).
Proof.
  unfold worker_body, select_case. intros H.
  destruct (pc k); try (repeat case_match; by simplify_eq).
  destruct (stopTimerCh (id k) (store W)) as [[b s]|] eqn:Hs; simplify_eq.
  - split; [|done]. cbn. by eapply stopTimerCh_signaled.
  - done.
Qed.

(** A closed channel stays closed and a cancelled context stays cancelled;
    the channel and the id of a goroutine never change. *)
Lemma step_signals a W W' g k ch :
  step a W = Some W' →
  goroutines W !! g = Some k →
  ∃ k', goroutines W' !! g = Some k' ∧
        stopCh k' = stopCh k ∧ id k' = id k ∧ kind k' = kind k ∧
        (signaled (store W) ch = true → signaled (store W') ch = true) ∧
        (ctxDone W = true → ctxDone W' = true).
Proof.
  intros Hstep Hg.
  destruct (step_lookup _ _ _ _ _ Hstep Hg)
    as (k' & Hg' & Hk').
  exists k'. split; [done|].
  assert (Hf : stopCh k' = stopCh k ∧ id k' = id k ∧ kind k' = kind k).
  { destruct Hk' as [(_ & t & ->)|[(_ & _ & ->)|(o & W1 & _ & Hb)]]; try done.
    apply worker_body_fields in Hb. tauto. }
  destruct Hf as (? & ? & ?). repeat split; try done.
  - clear Hk' Hg'. unfold step in Hstep. destruct (crashed W); [done|].
    destruct a as [cb d a|i|cb d a|i| |g'|g' o| ]; intros Hsig.
    + simplify_eq. unfold setTimeout; cbn.
      by apply (getTimerStopCh_signaled (store W)).
    + simplify_eq. unfold clearTimeout.
      destruct (stopTimerCh i (store W)) as [[b s]|] eqn:Hs; [|done].
      cbn. by eapply stopTimerCh_signaled.
    + simplify_eq. unfold setInterval; cbn.
      by apply (getTimerStopCh_signaled (store W)).
    + simplify_eq. unfold clearInterval.
      destruct (stopTimerCh i (store W)) as [[b s]|] eqn:Hs; [|done].
      cbn. by eapply stopTimerCh_signaled.
    + by simplify_eq.
    + repeat case_match; by simplify_eq.
    + destruct (goroutines W !! g') as [k0|]; [|done].
      unfold worker_step in Hstep.
      destruct (worker_body g' o k0 W) as [[k1 W1]|] eqn:Hb; simplify_eq.
      cbn. by apply (worker_body_signaled _ _ _ _ _ _ ch Hb).
    + destruct (queue W) as [|f q]; [done|].
      destruct (run_work f (set_queue q W)) as [err W1] eqn:Hr. simplify_eq.
      cbn. by rewrite (run_work_store _ _ _ _ Hr).
  - clear Hk' Hg'. unfold step in Hstep. destruct (crashed W); [done|].
    destruct a as [cb d a|i|cb d a|i| |g'|g' o| ]; intros Hctx.
    + by simplify_eq.
    + simplify_eq. unfold clearTimeout. by repeat (case_match; cbn).
    + by simplify_eq.
    + simplify_eq. unfold clearInterval. by repeat (case_match; cbn).
    + by simplify_eq.
    + repeat case_match; by simplify_eq.
    + destruct (goroutines W !! g') as [k0|]; [|done].
      unfold worker_step in Hstep.
      destruct (worker_body g' o k0 W) as [[k1 W1]|] eqn:Hb; simplify_eq.
      cbn. by apply (worker_body_signaled _ _ _ _ _ _ 0%nat Hb).
    + destruct (queue W) as [|f q]; [done|].
      destruct (run_work f (set_queue q W)) as [err W1] eqn:Hr. simplify_eq.
      cbn. destruct f; cbn in Hr; unfold call in Hr;
        repeat case_match; by simplify_eq.
Qed.

(** X10: a cancellation or an interruption is never lost.  Once the stop
    channel of a goroutine is closed, or the context is done, the
    corresponding case of its [select] is ready and stays ready through
    every later step of the machine, until the goroutine takes its
    [select]; a goroutine still in its [select] can then always move. *)
Theorem cancellation_stays_ready acts W W' g k o :
  run acts W = Some W' →
  goroutines W !! g = Some k →
  o ≠ Elapsed → ready o k W = true →
  ∃ k', goroutines W' !! g = Some k' ∧
        stopCh k' = stopCh k ∧ id k' = id k ∧
        ready o k' W' = true ∧
        (crashed W' = false → pc k' = AtSelect →
         is_Some (step (AWorker g o) W')).
Proof.
  intros Hrun Hg Ho Hready.
  assert (H : ∃ k', goroutines W' !! g = Some k' ∧
                    stopCh k' = stopCh k ∧ id k' = id k ∧
                    ready o k' W' = true).
  { revert W k Hrun Hg Hready.
    induction acts as [|a acts IH]; intros W k Hrun Hg Hready; cbn in Hrun.
    - simplify_eq. eauto.
    - destruct (step a W) as [W1|] eqn:Hstep; [|done].
      destruct (step_signals _ _ _ _ _ (stopCh k) Hstep Hg)
        as (k1 & Hg1 & Hch & Hid & _ & Hsig & Hctx).
      assert (Hready1 : ready o k1 W1 = true).
      { destruct o; [done| |]; cbn in *.
        - rewrite Hch. auto.
        - auto. }
      destruct (IH W1 k1 Hrun Hg1 Hready1) as (k' & Hg' & Hch' & Hid' & Hr').
      exists k'. repeat split; try done; congruence. }
  destruct H as (k' & Hg' & Hch' & Hid' & Hr').
  exists k'. repeat split; try done.
  intros Hc Hpc. rewrite (step_worker g o k' W' Hc Hg').
  unfold worker_step, worker_body. rewrite Hpc, Hr'.
  destruct (select_case g o k' W'). by eexists.
Qed.

Lemma cancellation_stays_ready_witness :
  let W := after [ASetTimeout example_callback 5%float [1%nat; 2%nat];
                  AWorker 0 Elapsed;
                  AClearTimeout 1] example_world in
  let k := mkWorker Timeout 1 0%nat example_callback [1%nat; 2%nat] 5%float
                    0%nat Armed 5000000 AtSelect in
  let acts := [ASetInterval example_callback 10%float []; AFire 0; AInterrupt] in
  let W' := after acts W in
  (run acts W = Some W' ∧ goroutines W !! 0%nat = Some k ∧
   Cancelled ≠ Elapsed ∧ ready Cancelled k W = true) ∧
  ∃ k', goroutines W' !! 0%nat = Some k' ∧
        stopCh k' = stopCh k ∧ id k' = id k ∧
        ready Cancelled k' W' = true ∧
        (crashed W' = false → pc k' = AtSelect →
         is_Some (step (AWorker 0 Cancelled) W')).
Proof.
  intros W k acts W'.
  assert (Hrun : run acts W = Some W') by (vm_compute; reflexivity).
  assert (Hg : goroutines W !! 0%nat = Some k) by (vm_compute; reflexivity).
  assert (Ho : Cancelled ≠ Elapsed) by discriminate.
  assert (Hr : ready Cancelled k W = true) by (vm_compute; reflexivity).
  split; [exact (conj Hrun (conj Hg (conj Ho Hr)))|].
  exact (cancellation_stays_ready acts W W' 0 k Cancelled Hrun Hg Ho Hr).
Defined.

(** ** Tokens *)

Lemma submits_registered_snoc tr e :
  submits_registered tr →
  (∀ g t f, e = EvSubmit g t f → EvRegister g t ∈ tr) →
  submits_registered (tr ++ [e]).
Proof.
  intros Htr He pre post g t f Heq.
  destruct post as [|e' post _] using rev_ind.
  - apply app_inj_tail in Heq as [-> ->]. by eapply He.
  - rewrite app_comm_cons, app_assoc in Heq.
    apply app_inj_tail in Heq as [Heq _]. by eapply Htr.
Qed.

Lemma worker_body_trace g o k W k' W' :
  worker_body g o k W = Some (k', W') →
  trace W' = trace W ∨
  (∃ f, trace W' = trace W ++ [EvSubmit g (runOnLoop k) f]) ∨
  (∃ f, trace W' = (trace W ++ [EvWarn (kind k) (id k)])
                   ++ [EvSubmit g (runOnLoop k) f]).
Proof.
  unfold worker_body, select_case. intros H.
  repeat case_match; simplify_eq; cbn; eauto.
Qed.

Lemma step_tokens_registered a W W' :
  step a W = Some W' →
  holds_registered W ∧ submits_registered (trace W) →
  holds_registered W' ∧ submits_registered (trace W').
Proof.
  intros Hstep [Hh Hs]. unfold step in Hstep. destruct (crashed W); [done|].
  destruct a as [cb d a|i|cb d a|i| |g|g o| ].
  - simplify_eq. unfold setTimeout; cbn. split.
    + intros g k. cbn. intros [Hg|[Hlen Hg]]%lookup_app_Some.
      * apply elem_of_app. left. eauto.
      * apply list_lookup_singleton_Some in Hg as [Hz <-]. cbn.
        replace g with (length (goroutines W)) by lia.
        apply elem_of_app. right. by apply list_elem_of_singleton.
    + apply submits_registered_snoc; [done|]. by intros ? ? ? [=].
  - simplify_eq. unfold clearTimeout. by repeat (case_match; cbn).
  - simplify_eq. unfold setInterval; cbn. split.
    + intros g k. cbn. intros [Hg|[Hlen Hg]]%lookup_app_Some.
      * apply elem_of_app. left. eauto.
      * apply list_lookup_singleton_Some in Hg as [Hz <-]. cbn.
        replace g with (length (goroutines W)) by lia.
        apply elem_of_app. right. by apply list_elem_of_singleton.
    + apply submits_registered_snoc; [done|]. by intros ? ? ? [=].
  - simplify_eq. unfold clearInterval. by repeat (case_match; cbn).
  - by simplify_eq.
  - destruct (goroutines W !! g) as [k|] eqn:Hg; [|done].
    destruct (timer k); simplify_eq. split; [|done].
    intros g' k'. cbn. rewrite list_lookup_insert.
    case_decide as Hd; [|by apply Hh].
    destruct Hd as [<- _]. intros [= <-]. cbn. by apply Hh.
  - destruct (goroutines W !! g) as [k|] eqn:Hg; [|done].
    unfold worker_step in Hstep.
    destruct (worker_body g o k W) as [[k' W1]|] eqn:Hb; simplify_eq.
    pose proof (worker_body_goroutines _ _ _ _ _ _ Hb) as Hgs.
    pose proof (worker_body_fields _ _ _ _ _ _ Hb) as (_&_&_&_&_&_&Hrol).
    pose proof (Hh _ _ Hg) as Hreg.
    assert (Hsub : ∀ x, x ∈ trace W → x ∈ trace W1).
    { intros x Hx.
      destruct (worker_body_trace _ _ _ _ _ _ Hb)
        as [->|[[f ->]|[f ->]]]; rewrite ?elem_of_app; auto. }
    split.
    + intros g' k0. cbn. rewrite Hgs, list_lookup_insert.
      case_decide as Hd.
      * destruct Hd as [<- _]. intros [= <-]. rewrite Hrol. auto.
      * intros Hg'. apply Hsub. by apply Hh.
    + cbn. destruct (worker_body_trace _ _ _ _ _ _ Hb)
        as [->|[[f ->]|[f ->]]]; [done| |].
      * apply submits_registered_snoc; [done|]. by intros ? ? ? [= <- <- _].
      * apply submits_registered_snoc.
        -- apply submits_registered_snoc; [done|]. by intros ? ? ? [=].
        -- intros ? ? ? [= <- <- _]. apply elem_of_app. by left.
  - destruct (queue W) as [|f q]; [done|].
    destruct (run_work f (set_queue q W)) as [err W1] eqn:Hr. simplify_eq.
    destruct f as [|cb a|g cb a]; cbn in Hr; unfold call in Hr.
    + simplify_eq. split.
      * intros g k Hg. cbn in *. apply elem_of_app. left. by apply Hh.
      * cbn. apply submits_registered_snoc; [done|]. by intros ? ? ? [=].
    + simplify_eq. split.
      * intros g k Hg. cbn in *. rewrite !elem_of_app. left; left.
        by apply Hh.
      * cbn. repeat (apply submits_registered_snoc; [|by intros ? ? ? [=]]).
        done.
    + assert (Hs' : submits_registered
                      (((trace W ++ [EvRegister g (tokens W)])
                        ++ [EvInvoke cb (globalObject W) a])
                       ++ [EvReturn (snd (cb (globalObject W) a))])).
      { repeat (apply submits_registered_snoc; [|by intros ? ? ? [=]]). done. }
      destruct (goroutines W !! g) as [k|] eqn:Hg; simplify_eq; cbn;
        (split; [|exact Hs']).
      * intros g' k'. cbn. rewrite list_lookup_insert.
        rewrite !elem_of_app. case_decide as Hd.
        -- destruct Hd as [<- _]. intros [= <-]. cbn.
           left; left; right. by apply list_elem_of_singleton.
        -- intros Hg'. left; left; left. by apply Hh.
      * intros g' k' Hg'. cbn in *. rewrite !elem_of_app.
        left; left; left. by apply Hh.
Qed.

(** X11: in every run of a VU, each submission to the executor is made
    with a token that [RegisterCallback] had returned, earlier, for that
    very goroutine, and the token a goroutine holds is always one
    registered for it: no goroutine ever submits with a capability it was
    not given. *)
Theorem submissions_use_registered_tokens W :
  reachable W →
  submits_registered (trace W) ∧ holds_registered W.
Proof.
  intros (glob & p & acts & Hrun).
  assert (H0 : holds_registered (new_world glob p) ∧
               submits_registered (trace (new_world glob p))).
  { split.
    - intros g k. cbn. by rewrite lookup_nil.
    - intros pre post g t f Heq. cbn in Heq. by destruct pre. }
  revert Hrun H0. generalize (new_world glob p).
  induction acts as [|a acts IH]; intros W0 Hrun H0; cbn in Hrun.
  - simplify_eq. tauto.
  - destruct (step a W0) as [W1|] eqn:Hstep; [|done].
    eauto using step_tokens_registered.
Qed.

Lemma submissions_use_registered_tokens_witness :
  let W := after interval_ticked example_world in
  reachable W ∧
  submits_registered (trace W) ∧ holds_registered W.
Proof.
  intros W.
  assert (Hr : reachable W).
  { exists 7%nat, example_platform, interval_ticked. vm_compute. reflexivity. }
  split; [exact Hr|]. exact (submissions_use_registered_tokens W Hr).
Defined.

(** ** The table and the goroutines *)

Lemma stopTimerCh_table i s b s' :
  stopTimerCh i s = Ret (b, s') →
  timerStops (inst s') = delete i (timerStops (inst s)).
Proof.
  unfold stopTimerCh, close_chan. intros H.
  destruct (timerStops (inst s) !! i) as [c|] eqn:Hi.
  - cbn in H. destruct (chans s !! c) as [[]|]; by simplify_eq.
  - simplify_eq. by rewrite delete_id.
Qed.

Lemma worker_body_table g o k W k' W' :
  worker_body g o k W = Some (k', W') →
  (timerStops (inst (store W')) = timerStops (inst (store W)) ∧
   (not_unregistered (pc k) = true → not_unregistered (pc k') = true)) ∨
  timerStops (inst (store W')) = delete (id k) (timerStops (inst (store W))).
Proof.
  unfold worker_body, select_case. intros H.
  destruct (pc k) eqn:Hpc;
    try (left; repeat case_match; simplify_eq; cbn; rewrite ?Hpc; done).
  destruct (stopTimerCh (id k) (store W)) as [[b s]|] eqn:Hs; simplify_eq.
  - right. cbn. by eapply stopTimerCh_table.
  - by left.
Qed.

Lemma step_entries_owned a W W' :
  step a W = Some W' → entries_owned W → entries_owned W'.
Proof.
  intros Hstep Hown i ch Hi.
  (* the entry was there before, with an owner that has not unregistered
     in this step, or it is the entry of the goroutine just started *)
  assert (Hcases :
    (timerStops (inst (store W)) !! i = Some ch ∧
     ∀ g o k, a = AWorker g o → goroutines W !! g = Some k →
              id k = i → not_unregistered (pc k) = true →
              ∃ k' W1, worker_body g o k W = Some (k', W1) ∧
                       not_unregistered (pc k') = true) ∨
    (∃ k, goroutines W' !! length (goroutines W) = Some k ∧
          id k = i ∧ stopCh k = ch ∧ pc k = AtNew)).
  { unfold step in Hstep. destruct (crashed W); [done|].
    destruct a as [cb d a|j|cb d a|j| |g|g o| ].
    - simplify_eq. unfold setTimeout in *; cbn in *.
      destruct (decide (i = wrap32 (timerStopCounter (inst (store W)) + 1)))
        as [->|Hne].
      + right. rewrite lookup_insert_eq in Hi. simplify_eq.
        eexists. split;
          [rewrite lookup_app_r by lia; by rewrite Nat.sub_diag|done].
      + left. rewrite lookup_insert_ne in Hi by done. split; [done|].
        by intros ? ? ? [=].
    - left. simplify_eq. split; [|by intros ? ? ? [=]].
      unfold clearTimeout in Hi.
      destruct (stopTimerCh j (store W)) as [[b s]|] eqn:Hs; [|done].
      cbn in Hi. rewrite (stopTimerCh_table _ _ _ _ Hs) in Hi.
      by apply lookup_delete_Some in Hi as [_ Hi].
    - simplify_eq. unfold setInterval in *; cbn in *.
      destruct (decide (i = wrap32 (timerStopCounter (inst (store W)) + 1)))
        as [->|Hne].
      + right. rewrite lookup_insert_eq in Hi. simplify_eq.
        eexists. split;
          [rewrite lookup_app_r by lia; by rewrite Nat.sub_diag|done].
      + left. rewrite lookup_insert_ne in Hi by done. split; [done|].
        by intros ? ? ? [=].
    - left. simplify_eq. split; [|by intros ? ? ? [=]].
      unfold clearInterval in Hi.
      destruct (stopTimerCh j (store W)) as [[b s]|] eqn:Hs; [|done].
      cbn in Hi. rewrite (stopTimerCh_table _ _ _ _ Hs) in Hi.
      by apply lookup_delete_Some in Hi as [_ Hi].
    - left. simplify_eq. split; [done|]. by intros ? ? ? [=].
    - left. split; [|by intros ? ? ? [=]].
      repeat case_match; by simplify_eq.
    - left. destruct (goroutines W !! g) as [k|] eqn:Hg; [|done].
      unfold worker_step in Hstep.
      destruct (worker_body g o k W) as [[k' W1]|] eqn:Hb; simplify_eq.
      cbn in Hi.
      destruct (worker_body_table _ _ _ _ _ _ Hb) as [[Heq Hpc]|Heq];
        rewrite Heq in Hi.
      + split; [done|]. intros g' o' k0 [= <- <-] Hg' Hid Hreg.
        simplify_eq. eauto.
      + apply lookup_delete_Some in Hi as [Hne Hi]. split; [done|].
        intros g' o' k0 [= <- <-] Hg' Hid Hreg. simplify_eq.
    - left. split; [|by intros ? ? ? [=]].
      destruct (queue W) as [|f q]; [done|].
      destruct (run_work f (set_queue q W)) as [err W1] eqn:Hr. simplify_eq.
      cbn in Hi. by rewrite (run_work_store _ _ _ _ Hr) in Hi. }
  destruct Hcases as [[Hold Hown']|(k & Hg & Hid & Hch & Hpc)].
  - destruct (Hown _ _ Hold) as (g & k & Hg & Hid & Hch & Hreg).
    destruct (step_lookup _ _ _ _ _ Hstep Hg)
      as (k' & Hg' & [(_ & t & ->)|[(_ & _ & ->)|(o & W1 & -> & Hb)]]).
    + exists g, (set_runOnLoop t k). by repeat split.
    + exists g, (set_timer Fired k). by repeat split.
    + destruct (Hown' g o k eq_refl Hg Hid Hreg) as (k'' & W1' & Hb' & Hreg').
      simplify_eq.
      pose proof (worker_body_fields _ _ _ _ _ _ Hb) as (_ & Hid' & Hch' & _).
      exists g, k'. repeat split; try done; congruence.
  - exists (length (goroutines W)), k. repeat split; try done.
    by rewrite Hpc.
Qed.

(** X12: in every run of a VU, each entry of the registry table is the id
    and the stop channel of a goroutine that has not yet run its deferred
    [stopTimerCh]: entries come only from [setTimeout] and [setInterval],
    and no goroutine that has unregistered leaves its entry behind. *)
Theorem table_entries_have_live_goroutines W :
  reachable W → entries_owned W.
Proof.
  intros (glob & p & acts & Hrun).
  assert (H0 : entries_owned (new_world glob p)).
  { intros i ch. cbn. by rewrite lookup_empty. }
  revert Hrun H0. generalize (new_world glob p).
  induction acts as [|a acts IH]; intros W0 Hrun H0; cbn in Hrun.
  - by simplify_eq.
  - destruct (step a W0) as [W1|] eqn:Hstep; [|done].
    eauto using step_entries_owned.
Qed.

Lemma table_entries_have_live_goroutines_witness :
  let W := after (interval_ticked
                  ++ [ASetTimeout example_callback 0%float [];
                      AWorker 1 Elapsed; AFire 1; AWorker 1 Elapsed;
                      AWorker 1 Elapsed])
             example_world in
  reachable W ∧ entries_owned W.
Proof.
  intros W.
  assert (Hr : reachable W).
  { exists 7%nat, example_platform,
      (interval_ticked
       ++ [ASetTimeout example_callback 0%float [];
           AWorker 1 Elapsed; AFire 1; AWorker 1 Elapsed;
           AWorker 1 Elapsed]).
    vm_compute. reflexivity. }
  split; [exact Hr|]. exact (table_entries_have_live_goroutines W Hr).
Defined.

(** ** A one-shot timer from the call to the callback *)

(** X13: a one-shot timer, end to end.  In any world that has not crashed
    and whose executor queue is empty, [setTimeout(cb, d, a...)] followed
    by the timer firing, the goroutine taking the [<-timer.C] case and the
    executor running makes the host see exactly one registration, one
    submission with that token, one invocation of [cb] with the global
    object and the arguments [a] in their order, and [cb]'s error handed
    back to the executor; this holds for every delay, clamped or not. *)
Theorem timeout_fires_once cb (d : float64) a W :
  crashed W = false → queue W = [] →
  let g := length (goroutines W) in
  ∃ W', run [ASetTimeout cb d a; AWorker g Elapsed; AFire g;
             AWorker g Elapsed; AExec] W = Some W' ∧
        trace W' = trace W ++
          [EvRegister g (tokens W);
           EvSubmit g (tokens W) (CallOnce cb a);
           EvInvoke cb (globalObject W) a;
           EvReturn (snd (cb (globalObject W) a))] ∧
        queue W' = [] ∧
        tokens W' = S (tokens W) ∧
        crashed W' = false.
Proof.
  intros Hc Hq g.
  set (i := fst (setTimeout cb d a W)).
  set (W1 := snd (setTimeout cb d a W)).
  set (k := mkWorker Timeout i (length (chans (store W))) cb a
              (if (d <? 0)%float then 0%float else d) (tokens W)
              Unset 0 AtNew).
  assert (H1 : step (ASetTimeout cb d a) W = Some W1)
    by (unfold step; by rewrite Hc).
  assert (Hg1 : goroutines W1 !! g = Some k).
  { subst W1 g k i. unfold setTimeout. cbn.
    rewrite lookup_app_r by lia. by rewrite Nat.sub_diag. }
  assert (Hc1 : crashed W1 = false) by exact Hc.
  set (k2 := set_pc AtSelect
               (set_timer Armed
                  (set_timer_d (to_Duration (platform W1) (delay k)) k))).
  set (W2 := set_goroutine g k2 W1).
  assert (H2 : step (AWorker g Elapsed) W1 = Some W2)
    by (by rewrite (step_worker g Elapsed k W1 Hc1 Hg1)).
  assert (Hg2 : goroutines W2 !! g = Some k2)
    by (by eapply lookup_set_goroutine).
  set (k3 := set_timer Fired k2).
  set (W3 := set_goroutine g k3 W2).
  assert (H3 : step (AFire g) W2 = Some W3)
    by (by rewrite (step_fire g k2 W2 Hc1 Hg2)).
  assert (Hg3 : goroutines W3 !! g = Some k3)
    by (by eapply lookup_set_goroutine).
  set (k4 := set_pc AtUnregister (set_timer Received k3)).
  set (W4 := set_goroutine g k4
               (submit g (tokens W) (CallOnce cb a) W3)).
  assert (H4 : step (AWorker g Elapsed) W3 = Some W4)
    by (by rewrite (step_worker g Elapsed k3 W3 Hc1 Hg3)).
  assert (Hq4 : queue W4 = [CallOnce cb a]) by (cbn; by rewrite Hq).
  assert (H5 : ∃ W5, step AExec W4 = Some W5 ∧
            trace W5 = trace W4 ++
              [EvInvoke cb (globalObject W) a;
               EvReturn (snd (cb (globalObject W) a))] ∧
            queue W5 = [] ∧ tokens W5 = S (tokens W) ∧ crashed W5 = false).
  { unfold step. rewrite Hq4.
    change (crashed W4) with (crashed W). rewrite Hc. cbn [run_work].
    unfold call. eexists. split; [reflexivity|]. cbn.
    rewrite <- !app_assoc. by rewrite Hc. }
  destruct H5 as (W5 & H5 & Htr5 & Hq5 & Htok5 & Hc5).
  exists W5. cbn [run]. rewrite H1, H2, H3, H4, H5.
  repeat split; try done.
  rewrite Htr5. cbn. by rewrite <- !app_assoc.
Qed.

Lemma timeout_fires_once_witness :
  let W := example_world in
  let cb := example_callback in
  (crashed W = false ∧ queue W = []) ∧
  ∃ W', run [ASetTimeout cb (-3)%float [4%nat; 5%nat]; AWorker 0 Elapsed;
             AFire 0; AWorker 0 Elapsed; AExec] W = Some W' ∧
        trace W' = trace W ++
          [EvRegister 0 (tokens W);
           EvSubmit 0 (tokens W) (CallOnce cb [4%nat; 5%nat]);
           EvInvoke cb (globalObject W) [4%nat; 5%nat];
           EvReturn (snd (cb (globalObject W) [4%nat; 5%nat]))] ∧
        queue W' = [] ∧
        tokens W' = S (tokens W) ∧
        crashed W' = false.
Proof.
  intros W cb. split; [split; reflexivity|].
  exact (timeout_fires_once cb (-3)%float [4%nat; 5%nat] W eq_refl eq_refl).
Defined.

(** X14: a one-shot timer cancelled before its goroutine has seen the
    timer fire.  [setTimeout] followed by [clearTimeout] of the id it
    returned, and the goroutine taking the [<-stopCh] case: the callback is
    never invoked; the host sees the registration, the submission of the
    no-op with that token and the no-op's nil result; the goroutine exits
    with the timer stopped, whether or not the timer has fired in between,
    and the table has no entry for the id.  The same holds when the id is
    cancelled through [clearInterval]. *)
Theorem timeout_cancelled_never_calls cb (d : float64) a W (fired via : bool) :
  crashed W = false → queue W = [] →
  let g := length (goroutines W) in
  let i := fst (setTimeout cb d a W) in
  let cancel := if via then AClearInterval i else AClearTimeout i in
  let fire := if fired then [AFire g] else [] in
  ∃ n W' k',
    run ([ASetTimeout cb d a; cancel; AWorker g Cancelled] ++ fire
         ++ replicate n (AWorker g Cancelled) ++ [AExec]) W = Some W' ∧
    trace W' = trace W ++
      [EvRegister g (tokens W);
       EvSubmit g (tokens W) Noop;
       EvReturn None] ∧
    queue W' = [] ∧
    goroutines W' !! g = Some k' ∧
    pc k' = Exited ∧ (timer k' = Stopped ∨ timer k' = Received) ∧
    timerStops (inst (store W')) !! i = None ∧
    crashed W' = false.
Proof.
  intros Hc Hq g i cancel fire.
  set (W1 := snd (setTimeout cb d a W)).
  set (ch := length (chans (store W))).
  set (k := mkWorker Timeout i ch cb a
              (if (d <? 0)%float then 0%float else d) (tokens W)
              Unset 0 AtNew).
  assert (H1 : step (ASetTimeout cb d a) W = Some W1)
    by (unfold step; by rewrite Hc).
  assert (Hg1 : goroutines W1 !! g = Some k).
  { subst W1 g k i ch. unfold setTimeout. cbn.
    rewrite lookup_app_r by lia. by rewrite Nat.sub_diag. }
  assert (Hi1 : timerStops (inst (store W1)) !! i = Some ch)
    by apply lookup_insert_eq.
  assert (Hch1 : chans (store W1) !! ch = Some false).
  { subst W1 ch. unfold setTimeout. cbn.
    rewrite lookup_app_r by lia. by rewrite Nat.sub_diag. }
  pose proof (stopTimerCh_present i ch (store W1) Hi1 Hch1) as Hstop.
  set (s2 := mkStore (mkEvents (timerStopCounter (inst (store W1)))
                               (delete i (timerStops (inst (store W1)))))
                     (<[ch := true]> (chans (store W1)))) in Hstop.
  set (W2 := set_store s2 W1).
  assert (H2 : step cancel W1 = Some W2).
  { subst cancel. unfold step. change (crashed W1) with (crashed W).
    rewrite Hc. destruct via; unfold clearInterval, clearTimeout;
      by rewrite Hstop. }
  assert (Hg2 : goroutines W2 !! g = Some k) by exact Hg1.
  assert (Hc2 : crashed W2 = false) by exact Hc.
  set (k3 := set_pc AtSelect
               (set_timer Armed
                  (set_timer_d (to_Duration (platform W2) (delay k)) k))).
  set (W3 := set_goroutine g k3 W2).
  assert (H3 : step (AWorker g Cancelled) W2 = Some W3)
    by (by rewrite (step_worker g Cancelled k W2 Hc2 Hg2)).
  assert (Hg3 : goroutines W3 !! g = Some k3)
    by (by eapply lookup_set_goroutine).
  (* the timer fires, or not, before the select is taken *)
  set (k4 := if fired then set_timer Fired k3 else k3).
  set (W4 := if fired then set_goroutine g k4 W3 else W3).
  assert (H4 : run fire W3 = Some W4).
  { subst fire W4 k4. destruct fired; [|done]. cbn [run].
    by rewrite (step_fire g k3 W3 Hc2 Hg3). }
  assert (Hg4 : goroutines W4 !! g = Some k4).
  { subst W4 k4. destruct fired; [|done]. by eapply lookup_set_goroutine. }
  assert (Hc4 : crashed W4 = false) by (subst W4; by destruct fired).
  assert (Hs4 : store W4 = s2) by (subst W4; by destruct fired).
  assert (Hsig : signaled s2 ch = true).
  { unfold signaled. subst s2. cbn.
    by rewrite list_lookup_insert_eq by (by eapply lookup_lt_Some). }
  set (k5 := set_pc AtUnregister k4).
  set (W5 := set_goroutine g k5 (submit g (tokens W) Noop W4)).
  assert (H5 : step (AWorker g Cancelled) W4 = Some W5).
  { rewrite (step_worker g Cancelled k4 W4 Hc4 Hg4).
    unfold worker_step, worker_body, ready, select_case.
    replace (pc k4) with AtSelect by (subst k4; by destruct fired).
    replace (stopCh k4) with ch by (subst k4; by destruct fired).
    rewrite Hs4, Hsig.
    replace (runOnLoop k4) with (tokens W) by (subst k4; by destruct fired).
    done. }
  assert (Hg5 : goroutines W5 !! g = Some k5)
    by (by eapply lookup_set_goroutine).
  assert (Hwf5 : timerStops (inst (store W5)) !! id k5 = None).
  { change (store W5) with (store W4). rewrite Hs4.
    replace (id k5) with i by (subst k5 k4; by destruct fired).
    subst s2. cbn. apply lookup_delete_eq. }
  assert (Hc5 : crashed W5 = false) by exact Hc4.
  assert (Hk5 : kind k5 = Timeout) by (subst k5 k4; by destruct fired).
  assert (Ht5 : timer k5 = Armed ∨ timer k5 = Fired)
    by (subst k5 k4; destruct fired; cbn; auto).
  (* the deferred function: the entry is gone already, [stopTimerCh]
     returns false *)
  set (k6 := set_pc AtTimerStop k5).
  set (W6 := set_goroutine g k6 (set_store (store W5) W5)).
  assert (H6 : step (AWorker g Cancelled) W5 = Some W6).
  { rewrite (step_worker g Cancelled k5 W5 Hc5 Hg5).
    unfold worker_step, worker_body. cbn [pc k5 set_pc].
    by rewrite (stopTimerCh_absent _ _ Hwf5). }
  assert (Hg6 : goroutines W6 !! g = Some k6)
    by (by eapply lookup_set_goroutine).
  assert (Ht6 : timer k6 = Armed ∨ timer k6 = Fired) by exact Ht5.
  destruct (Timer_Stop (platform W6) (timer k6)) as [t stopped] eqn:Hts.
  set (k7 := set_pc (if stopped then Exited else AtDrain) (set_timer t k6)).
  set (W7 := set_goroutine g k7 W6).
  assert (H7 : step (AWorker g Cancelled) W6 = Some W7).
  { rewrite (step_worker g Cancelled k6 W6 Hc5 Hg6).
    unfold worker_step, worker_body. cbn [pc k6 set_pc kind].
    rewrite Hk5. by rewrite Hts. }
  assert (Hg7 : goroutines W7 !! g = Some k7)
    by (by eapply lookup_set_goroutine).
  assert (Hexec : ∀ Wx, queue Wx = [Noop] → crashed Wx = false →
            step AExec Wx = Some (emit (EvReturn None) (set_queue [] Wx))).
  { intros Wx Hqx Hcx. unfold step. by rewrite Hcx, Hqx. }
  assert (Hq7 : queue W7 = [Noop]) by (cbn; subst W4; destruct fired; cbn;
                                       by rewrite Hq).
  assert (Htr7 : trace W7 = trace W ++
            [EvRegister g (tokens W); EvSubmit g (tokens W) Noop]).
  { cbn. subst W4. destruct fired; cbn; by rewrite <- app_assoc. }
  assert (Hi7 : timerStops (inst (store W7)) !! i = None).
  { change (store W7) with (store W4). rewrite Hs4. subst s2. cbn.
    apply lookup_delete_eq. }
  assert (Hpre : run [ASetTimeout cb d a; cancel; AWorker g Cancelled] W
                 = Some W3) by (cbn [run]; by rewrite H1, H2, H3).
  assert (Hpost : run (replicate 3 (AWorker g Cancelled)) W4 = Some W7)
    by (cbn [run replicate]; by rewrite H5, H6, H7).
  clearbody fire cancel.
  destruct stopped.
  - exists 3%nat, (emit (EvReturn None) (set_queue [] W7)), k7.
    rewrite run_app, Hpre, run_app, H4, run_app, Hpost. cbn [run].
    rewrite (Hexec W7 Hq7 Hc5).
    repeat split; try done.
    + cbn [trace emit set_queue]. rewrite Htr7, <- app_assoc. done.
    + unfold Timer_Stop in Hts. cbn.
      destruct Ht6 as [Ht|Ht]; rewrite Ht in Hts;
        repeat case_match; simplify_eq; auto.
  - assert (Hfired : t = Fired).
    { unfold Timer_Stop in Hts.
      destruct Ht6 as [Ht|Ht]; rewrite Ht in Hts;
        repeat case_match; by simplify_eq. }
    set (k8 := set_pc Exited (set_timer Received k7)).
    set (W8 := set_goroutine g k8 W7).
    assert (H8 : step (AWorker g Cancelled) W7 = Some W8).
    { rewrite (step_worker g Cancelled k7 W7 Hc5 Hg7).
      unfold worker_step, worker_body. cbn. by rewrite Hfired. }
    assert (Hg8 : goroutines W8 !! g = Some k8)
      by (by eapply lookup_set_goroutine).
    assert (Hpost4 : run (replicate 4 (AWorker g Cancelled)) W4 = Some W8)
      by (cbn [run replicate]; by rewrite H5, H6, H7, H8).
    exists 4%nat, (emit (EvReturn None) (set_queue [] W8)), k8.
    rewrite run_app, Hpre, run_app, H4, run_app, Hpost4. cbn [run].
    rewrite (Hexec W8 Hq7 Hc5).
    repeat split; try done.
    + cbn [trace emit set_queue]. change (trace W8) with (trace W7).
      rewrite Htr7, <- app_assoc. done.
    + by right.
Qed.

Lemma timeout_cancelled_never_calls_witness :
  let W := example_world in
  let cb := example_callback in
  (crashed W = false ∧ queue W = []) ∧
  ∃ n W' k',
    run ([ASetTimeout cb 5%float [1%nat; 2%nat]; AClearInterval 1;
          AWorker 0 Cancelled] ++ [AFire 0]
         ++ replicate n (AWorker 0 Cancelled) ++ [AExec]) W = Some W' ∧
    trace W' = trace W ++
      [EvRegister 0 (tokens W);
       EvSubmit 0 (tokens W) Noop;
       EvReturn None] ∧
    queue W' = [] ∧
    goroutines W' !! 0%nat = Some k' ∧
    pc k' = Exited ∧ (timer k' = Stopped ∨ timer k' = Received) ∧
    timerStops (inst (store W')) !! 1 = None ∧
    crashed W' = false.
Proof.
  intros W cb. split; [split; reflexivity|].
  exact (timeout_cancelled_never_calls cb 5%float [1%nat; 2%nat] W true true
           eq_refl eq_refl).
Defined.

(** ** Periods below one nanosecond *)

Lemma digits2_pos_bound (m : positive) : Z.pos m < 2 ^ Z.pos (digits2_pos m).
Proof.
  induction m as [m IH|m IH|]; cbn [digits2_pos];
    rewrite ?Pos2Z.inj_succ, ?Z.pow_succ_r by lia; lia.
Qed.

Lemma valid_mantissa_bound (s : bool) (m : positive) (e : Z) :
  valid_binary (S754_finite s m e) = true → Z.pos m < 2 ^ 53.
Proof.
  cbn. unfold bounded, canonical_mantissa, fexp.
  intros [Hcan _]%andb_true_iff. apply Z.eqb_eq in Hcan.
  assert (Hd : Z.pos (digits2_pos m) <= 53).
  { change prec with 53 in Hcan. revert Hcan.
    generalize (SpecFloat.emin 53 emax). intros z.
    unfold IntDef.Z.max.
    destruct (Z.pos (digits2_pos m) + e - 53 ?= z) eqn:Hcmp; intros Hcan.
    - apply Z.compare_eq in Hcmp. lia.
    - rewrite Z.compare_lt_iff in Hcmp. lia.
    - lia. }
  pose proof (digits2_pos_bound m).
  pose proof (Z.pow_le_mono_r 2 _ 53 ltac:(lia) Hd). lia.
Qed.

Lemma SFltb_below_one (m : positive) (e : Z) :
  SFltb (S754_finite false m e) (S754_finite false 4503599627370496 (-52))
    = true →
  e < -52 ∨ (e = -52 ∧ Z.pos m < 4503599627370496).
Proof.
  unfold SFltb, SFcompare. intros Hlt.
  destruct (e ?= -52) eqn:Hcmp.
  - right. apply Z.compare_eq in Hcmp. split; [exact Hcmp|].
    destruct (PosDef.Pos.compare_cont Eq m 4503599627370496) eqn:Hp;
      [discriminate Hlt| |discriminate Hlt].
    exact Hp.
  - left. by apply Z.compare_lt_iff.
  - discriminate Hlt.
Qed.

Lemma trunc_below_one (m : positive) (e : Z) :
  Z.pos m < 2 ^ 53 →
  e < -52 ∨ (e = -52 ∧ Z.pos m < 4503599627370496) →
  trunc_finite false m e = 0.
Proof.
  intros Hval He.
  assert (Hm : e < 0 ∧ Z.pos m < 2 ^ (- e)).
  { destruct He as [He|[-> Hm]].
    - split; [lia|].
      pose proof (Z.pow_le_mono_r 2 53 (- e) ltac:(lia) ltac:(lia)). lia.
    - split; [lia|]. exact Hm. }
  destruct Hm as [Hneg Hm].
  unfold trunc_finite. destruct (0 <=? e) eqn:Hle;
    [apply Z.leb_le in Hle; lia|].
  apply Z.div_small. lia.
Qed.

(** A binary64 value below one converts to a duration that is not
    positive: negative values stay negative, values in [0, 1) are
    truncated to zero. *)
Lemma float64_to_int64_below_one (a : Arch) (x : float64) :
  (x <? 1)%float = true → float64_to_int64 a x <= 0.
Proof.
  rewrite ltb_spec. unfold float64_to_int64.
  pose proof (Prim2SF_valid x) as Hval.
  change (Prim2SF 1) with (S754_finite false 4503599627370496 (-52)).
  destruct (Prim2SF x) as [s|[]| |[] m e].
  - intros _. reflexivity.
  - intros _. by apply out_of_range_nonpositive.
  - intros H. discriminate H.
  - intros H. discriminate H.
  - intros _. cbv zeta. pose proof (trunc_finite_negative m e).
    destruct (_ && _); [assumption|]. by apply out_of_range_nonpositive.
  - intros Hlt%SFltb_below_one.
    apply valid_mantissa_bound in Hval.
    cbv zeta. rewrite (trunc_below_one m e Hval Hlt). reflexivity.
Qed.

Lemma to_Duration_below_nanosecond (p : Platform) (delay : float64) :
  (delay * Millisecond <? 1)%float = true → to_Duration p delay <= 0.
Proof. apply float64_to_int64_below_one. Qed.

(** X9: [setInterval] with a period of less than one nanosecond, that is
    with [delay * float64(time.Millisecond)] below one, whether negative,
    zero or a positive fraction that the conversion to [time.Duration]
    truncates to zero, returns an id like any other call, and the first
    step of its goroutine, [time.NewTicker], panics and ends the
    process. *)
Theorem setInterval_subnanosecond_period_panics cb (d : float64) a W :
  crashed W = false →
  (d * Millisecond <? 1)%float = true →
  let g := length (goroutines W) in
  let W1 := snd (setInterval cb d a W) in
  step (ASetInterval cb d a) W = Some W1 ∧
  crashed W1 = false ∧
  timerStops (inst (store W1)) !! fst (setInterval cb d a W)
    = Some (length (chans (store W))) ∧
  ∀ o, ∃ W2 k2,
    step (AWorker g o) W1 = Some W2 ∧
    crashed W2 = true ∧
    goroutines W2 !! g = Some k2 ∧ pc k2 = Panicked ∧ timer k2 = Unset ∧
    ∀ act, step act W2 = None.
Proof.
  intros Hc Hd g W1.
  assert (Hstep : step (ASetInterval cb d a) W = Some W1)
    by (unfold step; by rewrite Hc).
  split; [done|]. split; [done|].
  split; [apply lookup_insert_eq|].
  set (k := mkWorker Interval (fst (setInterval cb d a W))
              (length (chans (store W))) cb a d (tokens W) Unset 0 AtNew).
  assert (Hg : goroutines W1 !! g = Some k).
  { subst W1 g k. unfold setInterval. cbn.
    rewrite lookup_app_r by lia. by rewrite Nat.sub_diag. }
  intros o.
  pose proof (to_Duration_below_nanosecond (platform W1) d Hd) as Hle.
  apply Z.leb_le in Hle.
  exists (set_goroutine g (set_pc Panicked k) (crash W1)), (set_pc Panicked k).
  split.
  { rewrite (step_worker g o k W1 Hc Hg).
    unfold worker_step, worker_body. cbn [pc kind k delay].
    by rewrite Hle. }
  split; [done|]. split.
  { apply lookup_set_goroutine with (k := k). exact Hg. }
  repeat split; intros; by apply step_crashed.
Qed.

Lemma setInterval_subnanosecond_period_panics_witness :
  let cb := example_callback in
  let W := example_world in
  let d := 0x1p-24%float in
  let g := length (goroutines W) in
  let W1 := snd (setInterval cb d [] W) in
  (crashed W = false ∧ (d * Millisecond <? 1)%float = true ∧
   (0 <? d)%float = true) ∧
  step (ASetInterval cb d []) W = Some W1 ∧
  crashed W1 = false ∧
  timerStops (inst (store W1)) !! fst (setInterval cb d [] W)
    = Some (length (chans (store W))) ∧
  ∀ o, ∃ W2 k2,
    step (AWorker g o) W1 = Some W2 ∧
    crashed W2 = true ∧
    goroutines W2 !! g = Some k2 ∧ pc k2 = Panicked ∧ timer k2 = Unset ∧
    ∀ act, step act W2 = None.
Proof.
  intros cb W d g W1. split; [repeat split; reflexivity|].
  exact (setInterval_subnanosecond_period_panics cb d [] W eq_refl eq_refl).
Defined.

(** ** A cancellation that comes after the timer has fired *)

(** X15: cancelling is best effort once the timer has fired.  If
    [clearTimeout] (or [clearInterval]) is called after the timer has
    fired and before the goroutine has taken its [select], both cases of
    the [select] are ready; when it takes the [<-timer.C] case the
    callback is submitted and invoked although the cancel has already
    removed the entry and closed the channel. *)
Theorem cancel_after_fire_may_still_call cb (d : float64) a W (via : bool) :
  crashed W = false → queue W = [] →
  let g := length (goroutines W) in
  let i := fst (setTimeout cb d a W) in
  let cancel := if via then AClearInterval i else AClearTimeout i in
  ∃ W4 k4 W',
    run [ASetTimeout cb d a; AWorker g Elapsed; AFire g; cancel] W = Some W4 ∧
    goroutines W4 !! g = Some k4 ∧ pc k4 = AtSelect ∧
    timerStops (inst (store W4)) !! i = None ∧
    ready Cancelled k4 W4 = true ∧ ready Elapsed k4 W4 = true ∧
    run [AWorker g Elapsed; AExec] W4 = Some W' ∧
    trace W' = trace W ++
      [EvRegister g (tokens W);
       EvSubmit g (tokens W) (CallOnce cb a);
       EvInvoke cb (globalObject W) a;
       EvReturn (snd (cb (globalObject W) a))].
Proof.
  intros Hc Hq g i cancel.
  set (W1 := snd (setTimeout cb d a W)).
  set (ch := length (chans (store W))).
  set (k := mkWorker Timeout i ch cb a
              (if (d <? 0)%float then 0%float else d) (tokens W)
              Unset 0 AtNew).
  assert (H1 : step (ASetTimeout cb d a) W = Some W1)
    by (unfold step; by rewrite Hc).
  assert (Hg1 : goroutines W1 !! g = Some k).
  { subst W1 g k i ch. unfold setTimeout. cbn.
    rewrite lookup_app_r by lia. by rewrite Nat.sub_diag. }
  assert (Hc1 : crashed W1 = false) by exact Hc.
  set (k2 := set_pc AtSelect
               (set_timer Armed
                  (set_timer_d (to_Duration (platform W1) (delay k)) k))).
  set (W2 := set_goroutine g k2 W1).
  assert (H2 : step (AWorker g Elapsed) W1 = Some W2)
    by (by rewrite (step_worker g Elapsed k W1 Hc1 Hg1)).
  assert (Hg2 : goroutines W2 !! g = Some k2)
    by (by eapply lookup_set_goroutine).
  set (k3 := set_timer Fired k2).
  set (W3 := set_goroutine g k3 W2).
  assert (H3 : step (AFire g) W2 = Some W3)
    by (by rewrite (step_fire g k2 W2 Hc1 Hg2)).
  assert (Hg3 : goroutines W3 !! g = Some k3)
    by (by eapply lookup_set_goroutine).
  assert (Hi3 : timerStops (inst (store W3)) !! i = Some ch)
    by apply lookup_insert_eq.
  assert (Hch3 : chans (store W3) !! ch = Some false).
  { subst W3 W2 W1 ch. unfold setTimeout. cbn.
    rewrite lookup_app_r by lia. by rewrite Nat.sub_diag. }
  pose proof (stopTimerCh_present i ch (store W3) Hi3 Hch3) as Hstop.
  set (s4 := mkStore (mkEvents (timerStopCounter (inst (store W3)))
                               (delete i (timerStops (inst (store W3)))))
                     (<[ch := true]> (chans (store W3)))) in Hstop.
  set (W4 := set_store s4 W3).
  assert (H4 : step cancel W3 = Some W4).
  { subst cancel. unfold step. change (crashed W3) with (crashed W).
    rewrite Hc. destruct via; unfold clearInterval, clearTimeout;
      by rewrite Hstop. }
  assert (Hg4 : goroutines W4 !! g = Some k3) by exact Hg3.
  assert (Hsig : signaled s4 ch = true).
  { unfold signaled. subst s4. cbn.
    by rewrite list_lookup_insert_eq by (by eapply lookup_lt_Some). }
  set (k5 := set_pc AtUnregister (set_timer Received k3)).
  set (W5 := set_goroutine g k5
               (submit g (tokens W) (CallOnce cb a) W4)).
  assert (H5 : step (AWorker g Elapsed) W4 = Some W5)
    by (by rewrite (step_worker g Elapsed k3 W4 Hc1 Hg4)).
  assert (Hq5 : queue W5 = [CallOnce cb a]) by (cbn; by rewrite Hq).
  assert (H6 : ∃ W6, step AExec W5 = Some W6 ∧
            trace W6 = trace W5 ++
              [EvInvoke cb (globalObject W) a;
               EvReturn (snd (cb (globalObject W) a))]).
  { unfold step. rewrite Hq5.
    change (crashed W5) with (crashed W). rewrite Hc. cbn [run_work].
    unfold call. eexists. split; [reflexivity|]. cbn.
    by rewrite <- !app_assoc. }
  destruct H6 as (W6 & H6 & Htr6).
  clearbody cancel.
  exists W4, k3, W6. cbn [run]. rewrite H1, H2, H3, H4, H5, H6.
  repeat split; try done.
  - cbn. apply lookup_delete_eq.
  - rewrite Htr6. cbn. by rewrite <- !app_assoc.
Qed.

Lemma cancel_after_fire_may_still_call_witness :
  let W := example_world in
  let cb := example_callback in
  (crashed W = false ∧ queue W = []) ∧
  ∃ W4 k4 W',
    run [ASetTimeout cb 5%float [1%nat]; AWorker 0 Elapsed; AFire 0;
         AClearTimeout 1] W = Some W4 ∧
    goroutines W4 !! 0%nat = Some k4 ∧ pc k4 = AtSelect ∧
    timerStops (inst (store W4)) !! 1 = None ∧
    ready Cancelled k4 W4 = true ∧ ready Elapsed k4 W4 = true ∧
    run [AWorker 0 Elapsed; AExec] W4 = Some W' ∧
    trace W' = trace W ++
      [EvRegister 0 (tokens W);
       EvSubmit 0 (tokens W) (CallOnce cb [1%nat]);
       EvInvoke cb (globalObject W) [1%nat];
       EvReturn (snd (cb (globalObject W) [1%nat]))].
Proof.
  intros W cb. split; [split; reflexivity|].
  exact (cancel_after_fire_may_still_call cb 5%float [1%nat] W false
           eq_refl eq_refl).
Defined.

(** ** Warnings *)

Lemma worker_body_warn g o k W k' W' kd i :
  worker_body g o k W = Some (k', W') →
  EvWarn kd i ∈ trace W' →
  EvWarn kd i ∈ trace W ∨
  (kd = kind k ∧ i = id k ∧ ctxDone W = true ∧ pc k' = AtUnregister).
Proof.
  unfold worker_body, select_case. intros H.
  destruct (pc k) eqn:Hpc; try (repeat case_match; simplify_eq; by left).
  destruct (ready o k W) eqn:Hr; [|done]. simplify_eq.
  destruct o; cbn in Hr.
  - destruct (kind k); simplify_eq; cbn;
      rewrite elem_of_app, list_elem_of_singleton; intros [?|[=]]; by left.
  - destruct (kind k); simplify_eq; cbn;
      rewrite elem_of_app, list_elem_of_singleton; intros [?|[=]]; by left.
  - assert (Hcase : k' = set_pc AtUnregister k ∧
                    trace W' = (trace W ++ [EvWarn (kind k) (id k)])
                               ++ [EvSubmit g (runOnLoop k) Noop])
      by (destruct (kind k); by simplify_eq).
    destruct Hcase as [-> ->].
    rewrite !elem_of_app, !list_elem_of_singleton.
    intros [[?|[= -> ->]]|[=]]; [by left|by right].
Qed.

Lemma worker_body_past_select g o k W k' W' :
  worker_body g o k W = Some (k', W') →
  before_select (pc k) = false → before_select (pc k') = false.
Proof.
  unfold worker_body, select_case. intros H.
  destruct (pc k) eqn:Hpc; try done;
    repeat case_match; by simplify_eq.
Qed.

Lemma step_warn a W W' kd i :
  step a W = Some W' →
  EvWarn kd i ∈ trace W' →
  EvWarn kd i ∈ trace W ∨
  ∃ g k k', goroutines W !! g = Some k ∧
            goroutines W' !! g = Some k' ∧ kind k' = kd ∧ id k' = i ∧
            pc k' = AtUnregister ∧ ctxDone W = true.
Proof.
  intros Hstep. unfold step in Hstep. destruct (crashed W); [done|].
  destruct a as [cb d a|j|cb d a|j| |g|g o| ].
  - simplify_eq. unfold setTimeout; cbn.
    rewrite elem_of_app, list_elem_of_singleton. intros [?|[=]]. by left.
  - simplify_eq. unfold clearTimeout. left. revert H.
    by repeat (case_match; cbn).
  - simplify_eq. unfold setInterval; cbn.
    rewrite elem_of_app, list_elem_of_singleton. intros [?|[=]]. by left.
  - simplify_eq. unfold clearInterval. left. revert H.
    by repeat (case_match; cbn).
  - simplify_eq. by left.
  - left. revert H. repeat case_match; by simplify_eq.
  - destruct (goroutines W !! g) as [k|] eqn:Hg; [|done].
    unfold worker_step in Hstep.
    destruct (worker_body g o k W) as [[k' W1]|] eqn:Hb; simplify_eq.
    cbn [trace set_goroutine set_goroutines]. intros Hin.
    destruct (worker_body_warn _ _ _ _ _ _ _ _ Hb Hin)
      as [?|(-> & -> & Hctx & Hpc)]; [by left|].
    right. exists g, k, k'.
    pose proof (worker_body_fields _ _ _ _ _ _ Hb) as (Hk & Hid & _).
    repeat split; try done.
    cbn. apply list_lookup_insert_eq.
    rewrite (worker_body_goroutines _ _ _ _ _ _ Hb).
    by eapply lookup_lt_Some.
  - destruct (queue W) as [|f q]; [done|].
    destruct (run_work f (set_queue q W)) as [err W1] eqn:Hr. simplify_eq.
    cbn. rewrite elem_of_app, list_elem_of_singleton. intros [Hin|[=]].
    left. destruct f; cbn in Hr; unfold call in Hr;
      repeat case_match; simplify_eq; cbn in Hin;
      rewrite ?elem_of_app, ?list_elem_of_singleton in Hin;
      intuition (try done; discriminate).
Qed.

Lemma step_warnings_ok a W W' :
  step a W = Some W' → warnings_ok W → warnings_ok W'.
Proof.
  intros Hstep Hok kd i Hin.
  destruct (step_warn _ _ _ _ _ Hstep Hin)
    as [Hold|(g & k & k' & Hg & Hg' & Hk & Hid & Hpc & Hctx)].
  - destruct (Hok _ _ Hold) as (Hctx & g & k & Hg & Hk & Hid & Hpc).
    destruct (step_signals _ _ _ _ _ 0%nat Hstep Hg)
      as (k' & Hg' & _ & Hid' & Hk' & _ & Hctx').
    split; [auto|]. exists g, k'. repeat split; try congruence.
    destruct (step_lookup _ _ _ _ _ Hstep Hg)
      as (k'' & Hg'' & [(_ & t & ->)|[(_ & _ & ->)|(o & W1 & _ & Hb)]]);
      simplify_eq; try done.
    by eapply worker_body_past_select.
  - destruct (step_signals _ _ _ _ _ 0%nat Hstep Hg)
      as (? & _ & _ & _ & _ & _ & Hctx').
    split; [auto|]. exists g, k'. repeat split; try done. by rewrite Hpc.
Qed.

(** X16: a warning is logged only on interruption.  In every run of a VU,
    each warning in the log names the kind and the id of a goroutine that
    has left its [select], and the VU context is done. *)
Theorem warnings_only_when_interrupted W :
  reachable W → warnings_ok W.
Proof.
  intros (glob & p & acts & Hrun).
  assert (H0 : warnings_ok (new_world glob p)).
  { intros kd i Hin. cbn in Hin. by apply elem_of_nil in Hin. }
  revert Hrun H0. generalize (new_world glob p).
  induction acts as [|a acts IH]; intros W0 Hrun H0; cbn in Hrun.
  - by simplify_eq.
  - destruct (step a W0) as [W1|] eqn:Hstep; [|done].
    eauto using step_warnings_ok.
Qed.

Lemma warnings_only_when_interrupted_witness :
  let W := after (interval_armed ++ [AInterrupt; AWorker 0 Interrupted])
             example_world in
  (reachable W ∧ EvWarn Interval 1 ∈ trace W) ∧ warnings_ok W.
Proof.
  intros W.
  assert (Hr : reachable W).
  { exists 7%nat, example_platform,
      (interval_armed ++ [AInterrupt; AWorker 0 Interrupted]).
    vm_compute. reflexivity. }
  assert (Hin : EvWarn Interval 1 ∈ trace W).
  { assert (Htr : trace W = [EvRegister 0 0%nat; EvWarn Interval 1;
                             EvSubmit 0 0%nat Noop])
      by (vm_compute; reflexivity).
    rewrite Htr, !elem_of_cons. tauto. }
  split; [exact (conj Hr Hin)|].
  exact (warnings_only_when_interrupted W Hr).
Defined.

(** ** One channel per goroutine *)

Lemma stopTimerCh_chans_length i s b s' :
  stopTimerCh i s = Ret (b, s') → length (chans s') = length (chans s).
Proof.
  unfold stopTimerCh, close_chan. intros H.
  destruct (timerStops (inst s) !! i) as [c|]; [|by simplify_eq].
  cbn in H. destruct (chans s !! c) as [[]|]; simplify_eq.
  cbn. by rewrite length_insert.
Qed.

Lemma worker_body_chans_length g o k W k' W' :
  worker_body g o k W = Some (k', W') →
  length (chans (store W')) = length (chans (store W)).
Proof.
  unfold worker_body, select_case. intros H.
  destruct (pc k); try (repeat case_match; by simplify_eq).
  destruct (stopTimerCh (id k) (store W)) as [[b s]|] eqn:Hs; simplify_eq.
  - cbn. by eapply stopTimerCh_chans_length.
  - done.
Qed.

(** No step removes a channel. *)
Lemma step_chans_length a W W' :
  step a W = Some W' →
  (length (chans (store W)) ≤ length (chans (store W')))%nat.
Proof.
  intros Hstep. unfold step in Hstep. destruct (crashed W); [done|].
  destruct a as [cb d a|i|cb d a|i| |g|g o| ].
  - simplify_eq. unfold setTimeout; cbn. rewrite length_app. lia.
  - simplify_eq. unfold clearTimeout.
    destruct (stopTimerCh i (store W)) as [[b s]|] eqn:Hs; [|done].
    cbn. by rewrite (stopTimerCh_chans_length _ _ _ _ Hs).
  - simplify_eq. unfold setInterval; cbn. rewrite length_app. lia.
  - simplify_eq. unfold clearInterval.
    destruct (stopTimerCh i (store W)) as [[b s]|] eqn:Hs; [|done].
    cbn. by rewrite (stopTimerCh_chans_length _ _ _ _ Hs).
  - by simplify_eq.
  - repeat case_match; by simplify_eq.
  - destruct (goroutines W !! g) as [k|]; [|done].
    unfold worker_step in Hstep.
    destruct (worker_body g o k W) as [[k' W1]|] eqn:Hb; simplify_eq.
    cbn. by rewrite (worker_body_chans_length _ _ _ _ _ _ Hb).
  - destruct (queue W) as [|f q]; [done|].
    destruct (run_work f (set_queue q W)) as [err W1] eqn:Hr. simplify_eq.
    cbn. by rewrite (run_work_store _ _ _ _ Hr).
Qed.

(** A goroutine that a step starts owns the channel that the step made. *)
Lemma step_new_goroutine a W W' g k' :
  step a W = Some W' →
  goroutines W !! g = None →
  goroutines W' !! g = Some k' →
  stopCh k' = length (chans (store W)) ∧
  (stopCh k' < length (chans (store W')))%nat.
Proof.
  intros Hstep Hnone Hg'.
  assert (Halloc : ∀ cb d xs,
            (W' = snd (setTimeout cb d xs W) ∨ W' = snd (setInterval cb d xs W)) →
            stopCh k' = length (chans (store W)) ∧
            (stopCh k' < length (chans (store W')))%nat).
  { intros cb d xs HW.
    assert (Hgs : ∃ k, goroutines W' = goroutines W ++ [k] ∧
                       stopCh k = length (chans (store W)) ∧
                       length (chans (store W')) = S (length (chans (store W)))).
    { destruct HW as [-> | ->]; unfold setTimeout, setInterval; cbn;
        (eexists; split; [done|]; split; [done|]);
        rewrite length_app; cbn; lia. }
    destruct Hgs as (k & Hgs & Hch & Hlen).
    rewrite Hgs in Hg'. apply lookup_ge_None in Hnone.
    rewrite lookup_app_r in Hg' by done.
    apply list_lookup_singleton_Some in Hg' as [_ <-]. lia. }
  destruct (step_goroutines _ _ _ Hstep) as [[Ha _]|[_ Hlen]].
  - unfold step in Hstep. destruct (crashed W); [done|].
    destruct a; try done; simplify_eq; eauto.
  - apply lookup_ge_None in Hnone. apply lookup_lt_Some in Hg'. lia.
Qed.

Lemma step_channels_distinct a W W' :
  step a W = Some W' → channels_distinct W → channels_distinct W'.
Proof.
  intros Hstep [Hlt Hinj].
  pose proof (step_chans_length _ _ _ Hstep) as Hlen.
  assert (Hold : ∀ g k', goroutines W' !! g = Some k' →
            (∃ k, goroutines W !! g = Some k ∧ stopCh k' = stopCh k) ∨
            (goroutines W !! g = None ∧
             stopCh k' = length (chans (store W)) ∧
             (stopCh k' < length (chans (store W')))%nat)).
  { intros g k' Hg'. destruct (goroutines W !! g) as [k|] eqn:Hg.
    - left. exists k. split; [done|].
      destruct (step_signals _ _ _ _ _ 0%nat Hstep Hg) as (k'' & Hg'' & Hch & _).
      by simplify_eq.
    - right. split; [done|]. by eapply step_new_goroutine. }
  split.
  - intros g k' Hg'.
    destruct (Hold _ _ Hg') as [(k & Hg & ->)|(_ & _ & ?)]; [|done].
    specialize (Hlt _ _ Hg). lia.
  - intros g1 g2 k1 k2 Hg1 Hg2 Heq.
    destruct (Hold _ _ Hg1) as [(k1' & Hk1 & E1)|(N1 & E1 & _)],
             (Hold _ _ Hg2) as [(k2' & Hk2 & E2)|(N2 & E2 & _)].
    + eapply Hinj; [done|done|congruence].
    + specialize (Hlt _ _ Hk1). lia.
    + specialize (Hlt _ _ Hk2). lia.
    + (* both started by this step: a step starts at most one goroutine *)
      apply lookup_ge_None in N1, N2.
      apply lookup_lt_Some in Hg1, Hg2.
      destruct (step_goroutines _ _ _ Hstep) as [(_ & k & Hgs & _)|[_ Hl]].
      * rewrite Hgs, length_app in Hg1, Hg2. cbn in Hg1, Hg2. lia.
      * lia.
Qed.

Lemma reachable_channels_distinct W :
  reachable W → channels_distinct W.
Proof.
  intros (glob & p & acts & Hrun).
  assert (H0 : channels_distinct (new_world glob p)).
  { split; [intros g k Hg|intros g1 g2 k1 k2 Hg]; cbn in Hg;
      by rewrite lookup_nil in Hg. }
  revert Hrun H0. generalize (new_world glob p).
  induction acts as [|a acts IH]; intros W0 Hrun H0; cbn in Hrun.
  - by simplify_eq.
  - destruct (step a W0) as [W1|] eqn:Hstep; [|done].
    eauto using step_channels_distinct.
Qed.

(** X17: cancelling one timer signals one goroutine.  In every run of a VU
    each goroutine holds a channel that [getTimerStopCh] made for it alone;
    so when the table maps [i] to the channel of goroutine [g1], either
    cancel entry point closes that channel without a panic and leaves the
    channel of every other goroutine as it was. *)
Theorem cancel_signals_one_goroutine W i g1 g2 k1 k2 (via : bool) :
  reachable W →
  goroutines W !! g1 = Some k1 →
  goroutines W !! g2 = Some k2 →
  g1 ≠ g2 →
  timerStops (inst (store W)) !! i = Some (stopCh k1) →
  stopCh k1 ≠ stopCh k2 ∧
  ∃ W', (if via then clearInterval i W else clearTimeout i W) = Ret W' ∧
        signaled (store W') (stopCh k1) = true ∧
        signaled (store W') (stopCh k2) = signaled (store W) (stopCh k2) ∧
        goroutines W' = goroutines W.
Proof.
  intros Hr Hg1 Hg2 Hne Hi.
  destruct (reachable_channels_distinct _ Hr) as [Hlt Hinj].
  destruct (reachable_wf _ Hr) as [Hopen _].
  assert (Hch : stopCh k1 ≠ stopCh k2) by (intros E; eauto).
  split; [done|].
  pose proof (stopTimerCh_present _ _ _ Hi (Hopen _ _ Hi)) as Hs.
  eexists. split.
  { unfold clearInterval, clearTimeout. rewrite Hs. by destruct via. }
  unfold signaled; cbn. split; [|split; [|done]].
  - rewrite list_lookup_insert_eq; [done|]. by eapply Hlt.
  - by rewrite list_lookup_insert_ne.
Qed.

Lemma cancel_signals_one_goroutine_witness :
  let W := after [ASetTimeout example_callback 5%float [1%nat];
                  ASetInterval example_callback 5%float [2%nat]]
             example_world in
  let k1 := mkWorker Timeout 1 0%nat example_callback [1%nat] 5%float
                     0%nat Unset 0 AtNew in
  let k2 := mkWorker Interval 2 1%nat example_callback [2%nat] 5%float
                     1%nat Unset 0 AtNew in
  (reachable W ∧ goroutines W !! 0%nat = Some k1 ∧
   goroutines W !! 1%nat = Some k2 ∧ 0%nat ≠ 1%nat ∧
   timerStops (inst (store W)) !! 1 = Some (stopCh k1)) ∧
  stopCh k1 ≠ stopCh k2 ∧
  ∃ W', clearInterval 1 W = Ret W' ∧
        signaled (store W') (stopCh k1) = true ∧
        signaled (store W') (stopCh k2) = signaled (store W) (stopCh k2) ∧
        goroutines W' = goroutines W.
Proof.
  intros W k1 k2.
  assert (Hr : reachable W).
  { exists 7%nat, example_platform,
      [ASetTimeout example_callback 5%float [1%nat];
       ASetInterval example_callback 5%float [2%nat]].
    vm_compute. reflexivity. }
  assert (Hg1 : goroutines W !! 0%nat = Some k1) by (vm_compute; reflexivity).
  assert (Hg2 : goroutines W !! 1%nat = Some k2) by (vm_compute; reflexivity).
  assert (Hi : timerStops (inst (store W)) !! 1 = Some (stopCh k1))
    by (vm_compute; reflexivity).
  assert (Hne : 0%nat ≠ 1%nat) by lia.
  split; [exact (conj Hr (conj Hg1 (conj Hg2 (conj Hne Hi))))|].
  exact (cancel_signals_one_goroutine W 1 0%nat 1%nat k1 k2 true
           Hr Hg1 Hg2 Hne Hi).
Defined.
